(** * Project Elysium: the console game (game_engine.py) and the push
      server (main.py), embedded as functions over an explicit trace.

    Both programs are thin relays around two remote services.  What the
    functions do to the outside world is recorded in a trace of events
    (requests posted, seconds slept, files saved, messages pushed); what the
    outside world answers is a field of the [Host] record, a function of the
    trace so far.  Exceptions are values of [exn].

    Conventions of the model.
    - A Python [str] is the Rocq [string] of its UTF-8 encoding.
    - A decoded JSON document is a value of [json]; numbers are rationals,
      and an object lists the items of the decoded dict, one per key.
        - What [print] writes is not part of the model; a [print] whose
      argument can raise is.
    - Frames that do not decode as JSON are not part of the model. *)

From Stdlib Require Import String Ascii List ZArith QArith Qround Bool Lia.
From Stdlib Require Import DecimalString.
Import ListNotations.
Local Close Scope Q_scope.
Local Open Scope list_scope.
Local Open Scope string_scope.

(** ** Python values and built-ins *)

Set Warnings "-register-all".

Inductive json : Type :=
| JNull
| JBool (b : bool)
| JNum (q : Q)
| JStr (s : string)
| JArr (items : list json)
| JObj (members : list (string * json)).

(** What [Image.open] yields, seen through the only thing the programs do
    with it, which is to write it as PNG: [png_base64] is the text of
    [base64.b64encode(<PNG bytes>).decode("utf-8")], and [None] when the
    picture cannot be written as PNG ([image.save] raises OSError). *)
Record Image := { png_base64 : option string }.

(** A [requests.Response], through the accessors the programs use.
    [json_body] is [None] when [.json()] raises; [image_body] is [None] when
    [Image.open(BytesIO(.content))] raises. *)
Record Response := {
  status_code : Z;
  text : string;
  json_body : option json;
  image_body : option Image
}.

Inductive exn : Type :=
| RequestException (response : option Response)
| KeyError
| IndexError
| TypeError
| AttributeError
| ValueError
| UnidentifiedImageError
| EOFError
| OverflowError
| RecursionError
| OSError.

Inductive event : Type :=
| Post (url : string) (headers : list (string * string)) (body : json)
| Sleep (seconds : Z)
| Save (path : string) (image : Image)
| Send (message : json).

Inductive post_outcome : Type :=
| PostRaises (response : option Response)
| PostReturns (response : Response).

(** The process environment, the remote services, the platform, and the
    two built-ins whose text output is left open: [py_repr] is [str()] of a
    decoded value that is not a [str], [int_of_text] is [int()] of a [str].
    [max_sleep] is the longest time in seconds that [time.sleep] takes
    (beyond it the length does not fit the clock and OverflowError is
    raised); [writable] tells whether the file system takes a file of that
    name at that point. *)
Record Host := {
  GEMINI_API_KEY : string;
  HUGGINGFACE_API_KEY : string;
  reply : list event -> post_outcome;
  py_repr : json -> string;
  int_of_text : string -> option Z;
  max_sleep : Z;
  writable : list event -> string -> bool
}.

Inductive outcome (A : Type) : Type :=
| Ret (a : A)
| Raise (e : exn).
Arguments Ret {A} a.
Arguments Raise {A} e.

Definition M (A : Type) : Type := Host -> list event -> outcome A * list event.

Definition ret {A} (a : A) : M A := fun _ tr => (Ret a, tr).

Definition raise {A} (e : exn) : M A := fun _ tr => (Raise e, tr).

Definition bind {A B} (m : M A) (k : A -> M B) : M B :=
  fun h tr =>
    match m h tr with
    | (Ret a, tr') => k a h tr'
    | (Raise e, tr') => (Raise e, tr')
    end.

Declare Scope py_scope.
Delimit Scope py_scope with py.
Notation "x <- m ;; k" := (bind m (fun x => k))
  (at level 61, m at next level, right associativity) : py_scope.
Notation "m ;; k" := (bind m (fun _ => k))
  (at level 61, right associativity) : py_scope.
Local Open Scope py_scope.

Definition ask : M Host := fun h tr => (Ret h, tr).

Definition emit (e : event) : M unit := fun _ tr => (Ret tt, (tr ++ [e])%list).

(** [try: body except requests.exceptions.RequestException as e: handler]. *)
Definition try_RequestException {A} (body : M A)
    (handler : option Response -> M A) : M A :=
  fun h tr =>
    match body h tr with
    | (Raise (RequestException r), tr') => handler r h tr'
    | other => other
    end.

(** [try: body except: handler]. *)
Definition try_except {A} (body : M A) (handler : M A) : M A :=
  fun h tr =>
    match body h tr with
    | (Raise _, tr') => handler h tr'
    | other => other
    end.

(** *** Strings *)

Definition is_lower (c : ascii) : bool :=
  (("a" <=? c) && (c <=? "z"))%char.

Definition upper_char (c : ascii) : ascii :=
  if is_lower c then ascii_of_nat (nat_of_ascii c - 32) else c.

(** The text of a sequence of bytes. *)
Definition utf8 (bytes : list nat) : string :=
  string_of_list_ascii (map ascii_of_nat bytes).

(** The code points of two and of three bytes whose upper case has an
    ASCII letter in it, with that upper case: dotless i and long s, sharp
    s, U+0149, U+01F0; U+1E96 to U+1E9A and the ligatures U+FB00 to
    U+FB06. *)
Definition upper2 (a b : ascii) : option string :=
  if ((a =? "196") && (b =? "177"))%char then Some "I"
  else if ((a =? "197") && (b =? "191"))%char then Some "S"
  else if ((a =? "195") && (b =? "159"))%char then Some "SS"
  else if ((a =? "197") && (b =? "137"))%char then Some (utf8 [202; 188; 78])
  else if ((a =? "199") && (b =? "176"))%char then Some (utf8 [74; 204; 140])
  else None.

Definition upper3 (a b c : ascii) : option string :=
  if ((a =? "225") && (b =? "186"))%char then
    if (c =? "150")%char then Some (utf8 [72; 204; 177])
    else if (c =? "151")%char then Some (utf8 [84; 204; 136])
    else if (c =? "152")%char then Some (utf8 [87; 204; 138])
    else if (c =? "153")%char then Some (utf8 [89; 204; 138])
    else if (c =? "154")%char then Some (utf8 [65; 202; 190])
    else None
  else if ((a =? "239") && (b =? "172"))%char then
    if (c =? "128")%char then Some "FF"
    else if (c =? "129")%char then Some "FI"
    else if (c =? "130")%char then Some "FL"
    else if (c =? "131")%char then Some "FFI"
    else if (c =? "132")%char then Some "FFL"
    else if (c =? "133")%char then Some "ST"
    else if (c =? "134")%char then Some "ST"
    else None
  else None.

(** [s.upper()] on the encoded text.  The ASCII letters go to upper case,
    and so does every code point whose upper case has an ASCII letter in
    it.  The other code points are kept as they are, where Python may give
    another text without ASCII letters: the comparisons the program makes
    with "QUIT", "A" and "B" come out as in Python. *)
Fixpoint upper (s : string) : string :=
  match s with
  | EmptyString => EmptyString
  | String a r =>
      match r with
      | EmptyString => String (upper_char a) EmptyString
      | String b r2 =>
          match upper2 a b with
          | Some u => u ++ upper r2
          | None =>
              match r2 with
              | EmptyString => String (upper_char a) (upper r)
              | String c r3 =>
                  match upper3 a b c with
                  | Some u => u ++ upper r3
                  | None => String (upper_char a) (upper r)
                  end
              end
          end
      end
  end.

Definition newline : ascii := "010"%char.

(** [s.replace(old, new)] for a one-character [old]. *)
Fixpoint replace (old : ascii) (new : string) (s : string) : string :=
  match s with
  | EmptyString => EmptyString
  | String c r =>
      if (c =? old)%char then new ++ replace old new r
      else String c (replace old new r)
  end.

(** The code points for which [str.isspace] holds, by the bytes of their
    encoding.  One byte: tab, LF, VT, FF, CR, the separators FS, GS, RS,
    US, and the blank. *)
Definition is_space1 (a : ascii) : bool :=
  let n := nat_of_ascii a in
  ((9 <=? n) && (n <=? 13) || (28 <=? n) && (n <=? 32))%nat.

(** Two bytes: U+0085 and U+00A0. *)
Definition is_space2 (a b : ascii) : bool :=
  ((a =? "194") && ((b =? "133") || (b =? "160")))%char.

(** Three bytes: U+1680, U+2000 to U+200A, U+2028, U+2029, U+202F,
    U+205F and U+3000. *)
Definition is_space3 (a b c : ascii) : bool :=
  let n := nat_of_ascii c in
  ((a =? "225") && (b =? "154") && (c =? "128")
   || (a =? "226") && (b =? "128")
      && ((128 <=? n)%nat && (n <=? 138)%nat
          || (c =? "168") || (c =? "169") || (c =? "175"))
   || (a =? "226") && (b =? "129") && (c =? "159")
   || (a =? "227") && (b =? "128") && (c =? "128"))%char.

(** The text after its first code point, when that is white space. *)
Definition drop_space (s : string) : option string :=
  match s with
  | EmptyString => None
  | String a r =>
      if is_space1 a then Some r
      else match r with
           | EmptyString => None
           | String b r2 =>
               if is_space2 a b then Some r2
               else match r2 with
                    | EmptyString => None
                    | String c r3 => if is_space3 a b c then Some r3 else None
                    end
           end
  end.

(** [s.lstrip()]: the white space at the start goes. *)
Fixpoint lstrip (s : string) : string :=
  match s with
  | EmptyString => EmptyString
  | String a r =>
      if is_space1 a then lstrip r
      else match r with
           | EmptyString => s
           | String b r2 =>
               if is_space2 a b then lstrip r2
               else match r2 with
                    | EmptyString => s
                    | String c r3 => if is_space3 a b c then lstrip r3 else s
                    end
           end
  end.

(** The text is white space from end to end. *)
Fixpoint all_space (s : string) : bool :=
  match s with
  | EmptyString => true
  | String a r =>
      if is_space1 a then all_space r
      else match r with
           | EmptyString => false
           | String b r2 =>
               if is_space2 a b then all_space r2
               else match r2 with
                    | EmptyString => false
                    | String c r3 => if is_space3 a b c then all_space r3 else false
                    end
           end
  end.

(** [s.rstrip()]: the white space at the end goes. *)
Fixpoint rstrip (s : string) : string :=
  match s with
  | EmptyString => EmptyString
  | String c r => if all_space s then EmptyString else String c (rstrip r)
  end.

Definition strip (s : string) : string := rstrip (lstrip s).

(** [needle in s] for two strings. *)
Fixpoint contains (needle s : string) : bool :=
  prefix needle s ||
  match s with
  | EmptyString => false
  | String _ r => contains needle r
  end.

(** [' '.join(lines)]. *)
Definition join (sep : string) (lines : list string) : string :=
  String.concat sep lines.

Definition decimal (n : nat) : string :=
  NilEmpty.string_of_uint (Nat.to_uint n).

(** *** Decoded JSON values *)

Fixpoint lookup (key : string) (members : list (string * json)) : option json :=
  match members with
  | [] => None
  | (k, v) :: rest => if (k =? key)%string then Some v else lookup key rest
  end.

(** Truth value of a decoded document, as [if v:] tests it. *)
Definition truthy (v : json) : bool :=
  match v with
  | JNull => false
  | JBool b => b
  | JNum q => negb (Qnum q =? 0)%Z
  | JStr s => negb (s =? "")%string
  | JArr items => match items with [] => false | _ => true end
  | JObj members => match members with [] => false | _ => true end
  end.

(** [v.get(key)] and [v.get(key, default)]: only a dict has [get]. *)
Definition py_get (v : json) (key : string) (default : json) : M json :=
  match v with
  | JObj members =>
      ret (match lookup key members with Some x => x | None => default end)
  | _ => raise AttributeError
  end.

(** [v[key]] for a string key. *)
Definition getitem (v : json) (key : string) : M json :=
  match v with
  | JObj members =>
      match lookup key members with
      | Some x => ret x
      | None => raise KeyError
      end
  | _ => raise TypeError
  end.

(** [v[0]].  (Of a text the model gives the first byte where Python gives
    the first code point; the programs only index such a value further,
    which is a TypeError either way.) *)
Definition getitem0 (v : json) : M json :=
  match v with
  | JArr [] => raise IndexError
  | JArr (x :: _) => ret x
  | JStr EmptyString => raise IndexError
  | JStr (String c _) => ret (JStr (String c EmptyString))
  | JObj _ => raise KeyError
  | _ => raise TypeError
  end.

Definition is_text (key : string) (v : json) : bool :=
  match v with
  | JStr s => (s =? key)%string
  | _ => false
  end.

(** [key in v] for a string key. *)
Definition py_in (key : string) (v : json) : M bool :=
  match v with
  | JObj members =>
      ret (match lookup key members with Some _ => true | None => false end)
  | JArr items => ret (existsb (is_text key) items)
  | JStr s => ret (contains key s)
  | _ => raise TypeError
  end.

(** [int(x)] of a rational: truncation toward zero. *)
Definition truncate (q : Q) : Z := Z.quot (Qnum q) (Zpos (Qden q)).

(** [int(v)]. *)
Definition py_int (v : json) : M Z :=
  match v with
  | JNum q => ret (truncate q)
  | JBool b => ret (if b then 1 else 0)%Z
  | JStr s =>
      h <- ask ;;
      match int_of_text h s with
      | Some z => ret z
      | None => raise ValueError
      end
  | _ => raise TypeError
  end.

(** [str(v)], as an f-string applies it. *)
Definition py_str (v : json) : M string :=
  match v with
  | JStr s => ret s
  | _ => h <- ask ;; ret (py_repr h v)
  end.

(** [v.replace('\n', ' ').replace('*', '').strip()]: only a [str] has
    [replace]. *)
Definition clean (s : string) : string :=
  strip (replace "*" "" (replace newline " " s)).

Definition clean_value (v : json) : M string :=
  match v with
  | JStr s => ret (clean s)
  | _ => raise AttributeError
  end.

(** *** The requests library *)

Definition requests_post (url : string) (headers : list (string * string))
    (body : json) : M Response :=
  fun h tr =>
    let tr' := (tr ++ [Post url headers body])%list in
    match reply h tr' with
    | PostRaises r => (Raise (RequestException r), tr')
    | PostReturns r => (Ret r, tr')
    end.

Definition is_error_status (r : Response) : bool :=
  ((400 <=? status_code r) && (status_code r <? 600))%Z.

Definition raise_for_status (r : Response) : M unit :=
  if is_error_status r then raise (RequestException (Some r)) else ret tt.

(** [bool(response)] is [response.ok]. *)
Definition Response_bool (r : Response) : bool := negb (is_error_status r).

(** [response.json()]; its decoding error is a [RequestException]
    (requests.exceptions.JSONDecodeError), raised without a response. *)
Definition Response_json (r : Response) : M json :=
  match json_body r with
  | Some v => ret v
  | None => raise (RequestException None)
  end.

Definition Image_open (r : Response) : M Image :=
  match image_body r with
  | Some img => ret img
  | None => raise UnidentifiedImageError
  end.

(** [time.sleep(seconds)]: a negative length is a ValueError, a length
    beyond what the clock holds an OverflowError. *)
Definition time_sleep (seconds : Z) : M unit :=
  h <- ask ;;
  if (seconds <? 0)%Z then raise ValueError
  else if (max_sleep h <? seconds)%Z then raise OverflowError
  else emit (Sleep seconds).

(** [image.save(...)] as PNG, to a file or to a buffer: the encoding. *)
Definition png_encode (image : Image) : M string :=
  match png_base64 image with
  | Some data => ret data
  | None => raise OSError
  end.

(** [image.save(path)]: OSError when the picture cannot be encoded or the
    file cannot be written. *)
Definition image_save (path : string) (image : Image) : M unit :=
  fun h tr =>
    match png_base64 image with
    | Some _ =>
        if writable h tr path then (Ret tt, (tr ++ [Save path image])%list)
        else (Raise OSError, tr)
    | None => (Raise OSError, tr)
    end.

Definition GEMINI_API_URL : string :=
  "https://generativelanguage.googleapis.com/v1beta/models/gemini-2.5-flash-preview-05-20:generateContent?key=".

Definition STABLE_DIFFUSION_API_URL : string :=
  "https://api-inference.huggingface.co/models/stabilityai/stable-diffusion-xl-base-1.0".

Definition gemini_headers : list (string * string) :=
  [("Content-Type", "application/json")].

Definition gemini_payload (prompt : string) : json :=
  JObj [("contents", JArr [JObj [("parts", JArr [JObj [("text", JStr prompt)]])]])].

Definition image_headers (key : string) : list (string * string) :=
  [("Authorization", "Bearer " ++ key)].

Definition image_payload (visual_prompt : string) : json :=
  JObj [("inputs", JStr visual_prompt)].

(** [data['candidates'][0]['content']['parts'][0]['text']]. *)
Definition first_candidate_text (data : json) : M json :=
  candidates <- getitem data "candidates" ;;
  candidate <- getitem0 candidates ;;
  content <- getitem candidate "content" ;;
  parts <- getitem content "parts" ;;
  part <- getitem0 parts ;;
  getitem part "text".

Definition in_list (x : string) (xs : list string) : bool :=
  existsb (String.eqb x) xs.

(** [l.append(x)]. *)
Definition append {A} (l : list A) (x : A) : list A := (l ++ [x])%list.

(** ** game_engine.py: the console variant *)

Module Console.

Definition call_gemini_api (prompt : string) : M json :=
  h <- ask ;;
  try_RequestException
    (response <- requests_post (GEMINI_API_URL ++ GEMINI_API_KEY h)
                   gemini_headers (gemini_payload prompt) ;;
     raise_for_status response ;;
     data <- Response_json response ;;
     candidates <- py_get data "candidates" JNull ;;
     if truthy candidates then first_candidate_text data
     else ret (JStr "Error: The AI returned an unexpected text response."))
    (fun _ => ret (JStr "Error: Could not connect to the AI.")).

Definition visual_prompt_request (story_text : string) : string :=
  "You are an AI assistant that creates safe, simple, and concise image generation prompts. "
  ++ "Based on the following fantasy story scene, create a very short, clean, descriptive prompt. "
  ++ "It must be under 20 words. "
  ++ "Style: beautiful digital art, fantasy, cinematic lighting. "
  ++ "Scene: '" ++ story_text ++ "'".

Definition generate_visual_prompt (story_text : json) : M string :=
  scene <- py_str story_text ;;
  visual_prompt <- call_gemini_api (visual_prompt_request scene) ;;
  clean_value visual_prompt.

(** The handler's inner [try]: [Some wait_time] when the error body is
    taken for a loading notice, [None] when the [if] is not entered. *)
Definition loading_wait (error_data : json) : M (option Z) :=
  has_error <- py_in "error" error_data ;;
  if has_error then
    has_time <- py_in "estimated_time" error_data ;;
    if has_time then
      estimated_time <- getitem error_data "estimated_time" ;;
      wait_time <- py_int estimated_time ;;
      ret (Some wait_time)
    else ret None
  else ret None.

(** [fuel] is the number of nested calls the recursion limit of the
    interpreter still allows: the call beyond it ends in RecursionError
    before it has posted anything. *)
Fixpoint generate_image_with_stable_diffusion (fuel : nat)
    (visual_prompt : string) : M (option Image) :=
  h <- ask ;;
  if (HUGGINGFACE_API_KEY h =? "")%string then ret None
  else
    try_RequestException
      (response <- requests_post STABLE_DIFFUSION_API_URL
                     (image_headers (HUGGINGFACE_API_KEY h))
                     (image_payload visual_prompt) ;;
       raise_for_status response ;;
       image <- Image_open response ;;
       ret (Some image))
      (fun e_response =>
         match e_response with
         | Some r =>
             if Response_bool r then
               retried <-
                 try_except
                   (error_data <- Response_json r ;;
                    wait <- loading_wait error_data ;;
                    match wait with
                    | Some wait_time =>
                        time_sleep wait_time ;;
                        match fuel with
                        | O => raise RecursionError
                        | S fuel' =>
                            image <- generate_image_with_stable_diffusion
                                       fuel' visual_prompt ;;
                            ret (Some image)
                        end
                    | None => ret None
                    end)
                   (ret None) ;;
               match retried with
               | Some image => ret image
               | None => ret None
               end
             else ret None
         | None => ret None
         end).

Record Session := {
  story_history : list string;
  scene_text : json;
  scene_counter : nat
}.

Definition initial_prompt (user_idea : string) : string :=
  "You are a text adventure game's Dungeon Master. "
  ++ "The user's character and setting is: '" ++ user_idea ++ "'. "
  ++ "Describe the opening scene in a vivid, engaging style. "
  ++ "End your response by giving the user two clear choices, labeled A and B.".

Definition next_prompt (story_history : list string) : string :=
  "You are a text adventure game's Dungeon Master. Continue the story based on the user's last choice. "
  ++ "Describe the outcome and the new scene. Keep it consistent and engaging. "
  ++ "End with two new, clear choices, labeled A and B. "
  ++ "Here is the story so far:" ++ String newline (join " " story_history).

(** The illustration of a scene (lines 111-117 and 147-153); the result is
    the new [scene_counter]. *)
Definition illustrate (fuel : nat) (scene_text : json) (scene_counter : nat)
    : M nat :=
  visual_prompt <- generate_visual_prompt scene_text ;;
  image <- generate_image_with_stable_diffusion fuel visual_prompt ;;
  match image with
  | Some img =>
      let scene_counter := S scene_counter in
      image_save ("scene_" ++ decimal scene_counter ++ ".png") img ;;
      ret scene_counter
  | None => ret scene_counter
  end.

Inductive flow : Type := Break | Next.

(** One pass through the body of [while True], on the line [input()]
    returned. *)
Definition loop_body (fuel : nat) (st : Session) (line : string)
    : M (flow * Session) :=
  let user_choice := upper line in
  if (user_choice =? "QUIT")%string then ret (Break, st)
  else if negb (in_list user_choice ["A"; "B"]) then ret (Next, st)
  else
    let story_history := append (story_history st) ("User chose: " ++ user_choice) in
    scene_text <- call_gemini_api (next_prompt story_history) ;;
    scene <- py_str scene_text ;;
    let story_history := append story_history ("AI Scene: " ++ scene) in
    scene_counter <- illustrate fuel scene_text (scene_counter st) ;;
    ret (Next, {| story_history := story_history;
                  scene_text := scene_text;
                  scene_counter := scene_counter |}).

(** [print(textwrap.fill(scene_text, width=80))] at the head of every
    pass: only a [str] can be filled. *)
Definition print_scene (scene_text : json) : M unit :=
  match scene_text with
  | JStr _ => ret tt
  | _ => raise AttributeError
  end.

(** [while True] over the lines still to be typed; [input()] at the end of
    the input raises [EOFError]. *)
Fixpoint game_loop (fuel : nat) (st : Session) (stdin : list string)
    : M Session :=
  print_scene (scene_text st) ;;
  match stdin with
  | [] => raise EOFError
  | line :: rest =>
      r <- loop_body fuel st line ;;
      match r with
      | (Break, st') => ret st'
      | (Next, st') => game_loop fuel st' rest
      end
  end.

(** The result is the session as it stands when the loop is left. *)
Definition main_game_loop (fuel : nat) (stdin : list string) : M Session :=
  match stdin with
  | [] => raise EOFError
  | user_idea :: rest =>
      let story_history := ["The user's character is " ++ user_idea ++ "."] in
      scene_text <- call_gemini_api (initial_prompt user_idea) ;;
      scene <- py_str scene_text ;;
      let story_history := append story_history ("AI Scene: " ++ scene) in
      scene_counter <- illustrate fuel scene_text 0 ;;
      game_loop fuel {| story_history := story_history;
                        scene_text := scene_text;
                        scene_counter := scene_counter |} rest
  end.

End Console.

(** ** main.py: the push variant *)

Module Push.

Definition call_gemini_api (prompt : string) : M json :=
  h <- ask ;;
  returned <-
    try_RequestException
      (response <- requests_post (GEMINI_API_URL ++ GEMINI_API_KEY h)
                     gemini_headers (gemini_payload prompt) ;;
       raise_for_status response ;;
       data <- Response_json response ;;
       candidates <- py_get data "candidates" JNull ;;
       if truthy candidates then
         answer <- first_candidate_text data ;;
         ret (Some answer)
       else ret None)
      (fun _ => ret None) ;;
  match returned with
  | Some answer => ret answer
  | None => ret (JStr "Error: The AI storyteller is currently unavailable.")
  end.

(** [run_in_executor] hands the call to a worker thread and yields its
    result or its exception. *)
Definition call_gemini_api_async (prompt : string) : M json :=
  call_gemini_api prompt.

Definition visual_prompt_request (story_text : string) : string :=
  "You are an AI assistant creating image prompts. Based on the following scene, "
  ++ "create a short, descriptive prompt under 20 words. "
  ++ "Style: beautiful digital art, fantasy, cinematic lighting. "
  ++ "Scene: '" ++ story_text ++ "'".

Definition generate_visual_prompt_async (story_text : json) : M string :=
  scene <- py_str story_text ;;
  visual_prompt <- call_gemini_api_async (visual_prompt_request scene) ;;
  clean_value visual_prompt.

Definition generate_image_with_stable_diffusion (visual_prompt : string)
    : M (option string) :=
  h <- ask ;;
  if (HUGGINGFACE_API_KEY h =? "")%string then ret None
  else
    try_RequestException
      (response <- requests_post STABLE_DIFFUSION_API_URL
                     (image_headers (HUGGINGFACE_API_KEY h))
                     (image_payload visual_prompt) ;;
       raise_for_status response ;;
       image <- Image_open response ;;
       img_str <- png_encode image ;;
       ret (Some img_str))
      (fun _ => ret None).

Definition generate_image_async (visual_prompt : string) : M (option string) :=
  generate_image_with_stable_diffusion visual_prompt.

Definition default_idea : string := "a brave adventurer in a mysterious land".

Definition initial_prompt (user_idea : string) : string :=
  "You are a text adventure game's Dungeon Master. "
  ++ "The user's character and setting is: '" ++ user_idea ++ "'. "
  ++ "Describe the opening scene vividly. "
  ++ "Your response MUST end with two clear choices for the user, formatted exactly as 'A) [Choice text]' and 'B) [Choice text]' on separate lines.".

Definition next_prompt (story_history : list string) : string :=
  "You are a text adventure game's Dungeon Master. Continue the story based on the user's last choice. "
  ++ "Describe the outcome and the new scene. Keep the story consistent. "
  ++ "Your response MUST end with two new, clear choices, formatted exactly as 'A) [Choice text]' and 'B) [Choice text]' on separate lines. "
  ++ "Here is the story so far:" ++ String newline (join " " story_history).

(** Delivery of a scene (lines 112-117 and 138-143). *)
Definition deliver (scene_text : json) : M unit :=
  emit (Send (JObj [("type", JStr "story"); ("text", scene_text)])) ;;
  visual_prompt <- generate_visual_prompt_async scene_text ;;
  image_b64 <- generate_image_async visual_prompt ;;
  match image_b64 with
  | Some data =>
      if negb (data =? "")%string
      then emit (Send (JObj [("type", JStr "image"); ("data", JStr data)]))
      else ret tt
  | None => ret tt
  end.

(** One pass through the body of [while True], on the message
    [receive_json()] returned; the result is the transcript. *)
Definition loop_body (story_history : list string) (data : json)
    : M (list string) :=
  user_choice <- py_get data "choice" JNull ;;
  if negb (is_text "A" user_choice || is_text "B" user_choice)
  then ret story_history
  else
    choice <- py_str user_choice ;;
    let story_history := append story_history ("User chose: " ++ choice) in
    scene_text <- call_gemini_api_async (next_prompt story_history) ;;
    scene <- py_str scene_text ;;
    let story_history := append story_history ("AI Scene: " ++ scene) in
    deliver scene_text ;;
    ret story_history.

(** [while True] over the messages the client still sends.  When they are
    used up the client is gone: [receive_json()] raises WebSocketDisconnect,
    the handler of the endpoint ends the session, and the transcript as it
    stands then is the result. *)
Fixpoint session_loop (story_history : list string) (inbox : list json)
    : M (list string) :=
  match inbox with
  | [] => ret story_history
  | data :: rest =>
      story_history <- loop_body story_history data ;;
      session_loop story_history rest
  end.

Definition websocket_endpoint (inbox : list json) : M (list string) :=
  let story_history := [] in
  match inbox with
  | [] => ret story_history
  | initial_data :: rest =>
      user_idea <- py_get initial_data "idea" (JStr default_idea) ;;
      idea <- py_str user_idea ;;
      let story_history :=
        append story_history ("The user's character is " ++ idea ++ ".") in
      scene_text <- call_gemini_api_async (initial_prompt idea) ;;
      scene <- py_str scene_text ;;
      let story_history := append story_history ("AI Scene: " ++ scene) in
      deliver scene_text ;;
      session_loop story_history rest
  end.

End Push.

(** ** Hosts used in the examples *)

(** The number of requests in a trace, and the sleeps in it. *)
Definition posts (tr : list event) : nat :=
  List.length (filter (fun e => match e with Post _ _ _ => true | _ => false end) tr).

Definition sleeps (tr : list event) : list Z :=
  flat_map (fun e => match e with Sleep s => [s] | _ => [] end) tr.

(** A host whose services answer the successive requests with [replies],
    in order, and cannot be reached afterwards. *)
Definition scripted (hf_key : string) (replies : list post_outcome) : Host :=
  {| GEMINI_API_KEY := "gemini-key";
     HUGGINGFACE_API_KEY := hf_key;
     reply := fun tr => nth (pred (posts tr)) replies (PostRaises None);
     py_repr := fun _ => "";
     int_of_text := fun _ => None;
     max_sleep := 9223372036;
     writable := fun _ _ => true |}.

Definition ok_json (v : json) : post_outcome :=
  PostReturns {| status_code := 200; text := ""; json_body := Some v;
                 image_body := None |}.

Definition ok_image (b64 : string) : post_outcome :=
  PostReturns {| status_code := 200; text := ""; json_body := None;
                 image_body := Some {| png_base64 := Some b64 |} |}.

Definition candidate (answer : json) : json :=
  JObj [("candidates",
         JArr [JObj [("content", JObj [("parts", JArr [JObj [("text", answer)]])])]])].

Definition loading_notice (estimated_time : Q) : json :=
  JObj [("error", JStr "Model stabilityai/stable-diffusion-xl-base-1.0 is currently loading");
        ("estimated_time", JNum estimated_time)].

Definition replied (status : Z) (body : option json) : Response :=
  {| status_code := status; text := ""; json_body := body; image_body := None |}.

(** ** Vocabulary of the statements *)

Fixpoint occurs (c : ascii) (s : string) : bool :=
  match s with
  | EmptyString => false
  | String d r => (d =? c)%char || occurs c r
  end.

(** The white space of Python, [str.isspace]: the code points U+0009 to
    U+000D, U+001C to U+0020, U+0085, U+00A0, U+1680, U+2000 to U+200A,
    U+2028, U+2029, U+202F, U+205F and U+3000, each as its encoding. *)
Definition unicode_whitespace : list string :=
  map utf8
    [[9]; [10]; [11]; [12]; [13]; [28]; [29]; [30]; [31]; [32];
     [194; 133]; [194; 160];
     [225; 154; 128];
     [226; 128; 128]; [226; 128; 129]; [226; 128; 130]; [226; 128; 131];
     [226; 128; 132]; [226; 128; 133]; [226; 128; 134]; [226; 128; 135];
     [226; 128; 136]; [226; 128; 137]; [226; 128; 138];
     [226; 128; 168]; [226; 128; 169]; [226; 128; 175];
     [226; 129; 159];
     [227; 128; 128]].

Definition starts_with (w s : string) : Prop := exists r, s = w ++ r.
Definition ends_with (w s : string) : Prop := exists r, s = r ++ w.

(** No white space at either end. *)
Definition trimmed (s : string) : Prop :=
  forall w, In w unicode_whitespace -> ~ starts_with w s /\ ~ ends_with w s.

(** White space from end to end. *)
Inductive blank : string -> Prop :=
| blank_empty : blank ""
| blank_more (w r : string) :
    In w unicode_whitespace -> blank r -> blank (w ++ r).

(** The text with a blank for every line feed and without its stars,
    character by character. *)
Definition rewritten (s : string) : string :=
  string_of_list_ascii
    (flat_map (fun c => if (c =? newline)%char then [" "%char]
                        else if (c =? "*")%char then []
                        else [c])
              (list_ascii_of_string s)).

(** What the image-prompt derivers promise of their result. *)
Definition tidy (s : string) : Prop :=
  occurs newline s = false /\ occurs "*" s = false /\ trimmed s.

(** A path into a decoded document: a member of an object, or the first
    item of an array. *)
Inductive selector : Type := Member (key : string) | Head.

Fixpoint select (path : list selector) (v : json) : option json :=
  match path with
  | [] => Some v
  | Member key :: rest =>
      match v with
      | JObj members =>
          match lookup key members with
          | Some x => select rest x
          | None => None
          end
      | _ => None
      end
  | Head :: rest =>
      match v with
      | JArr (x :: _) => select rest x
      | _ => None
      end
  end.

Definition candidate_text_path : list selector :=
  [Member "candidates"; Head; Member "content"; Member "parts"; Head; Member "text"].

(** The exceptions of a document that has not the shape the code reads. *)
Definition structural (e : exn) : Prop :=
  e = KeyError \/ e = IndexError \/ e = TypeError \/ e = AttributeError.

(** The document a request brought back; [None] on a transport-level
    failure: no connection, an HTTP error status, a body that is not JSON. *)
Definition decoded (o : post_outcome) : option json :=
  match o with
  | PostRaises _ => None
  | PostReturns r => if is_error_status r then None else json_body r
  end.

Definition gemini_request (h : Host) (prompt : string) : event :=
  Post (GEMINI_API_URL ++ GEMINI_API_KEY h) gemini_headers (gemini_payload prompt).

Definition image_request (h : Host) (visual_prompt : string) : event :=
  Post STABLE_DIFFUSION_API_URL (image_headers (HUGGINGFACE_API_KEY h))
       (image_payload visual_prompt).

(** The result of a completion client on the service's answer [o], given
    its sentinel for a document without candidates and its sentinel for a
    transport-level failure. *)
Definition answers (unexpected unreachable : string) (o : post_outcome)
    (result : outcome json) : Prop :=
  match decoded o with
  | None => result = Ret (JStr unreachable)
  | Some (JObj members) =>
      if truthy (match lookup "candidates" members with
                 | Some c => c
                 | None => JNull
                 end)
      then match select candidate_text_path (JObj members) with
           | Some v => result = Ret v
           | None => exists e, structural e /\ result = Raise e
           end
      else result = Ret (JStr unexpected)
  | Some _ => result = Raise AttributeError
  end.

(** [str(v)] on the host [h]. *)
Definition shown (h : Host) (v : json) : string :=
  match v with
  | JStr s => s
  | _ => py_repr h v
  end.

(** How an image-prompt deriver follows its completion client. *)
Definition derived (client : outcome json * list event)
    (deriver : outcome string * list event) : Prop :=
  match client with
  | (Ret (JStr answer), tr') => deriver = (Ret (clean answer), tr')
  | (Ret _, tr') => deriver = (Raise AttributeError, tr')
  | (Raise e, tr') => deriver = (Raise e, tr')
  end.

(** A candidate the service cut short: no content member. *)
Definition blocked_answer : json :=
  JObj [("candidates", JArr [JObj [("finishReason", JStr "SAFETY")]])].

(** The two lines a turn adds to the transcript, for each turn: the choice
    and the scene that answered it. *)
Definition turn_lines (turns : list (string * string)) : list string :=
  flat_map (fun turn => ["User chose: " ++ fst turn; "AI Scene: " ++ snd turn]) turns.

(** A transcript: the premise, the opening scene, then the turns. *)
Definition transcript (idea opening : string) (turns : list (string * string))
    : list string :=
  ("The user's character is " ++ idea ++ ".")
    :: ("AI Scene: " ++ opening)
    :: turn_lines turns.

(** The valid choices typed at the console up to the quit signal, as the
    loop reads them. *)
Fixpoint console_choices (stdin : list string) : list string :=
  match stdin with
  | [] => []
  | line :: rest =>
      if (upper line =? "QUIT")%string then []
      else if in_list (upper line) ["A"; "B"]
           then upper line :: console_choices rest
           else console_choices rest
  end.

(** The valid choices among the messages of a client. *)
Definition push_choice (data : json) : list string :=
  match data with
  | JObj members =>
      match lookup "choice" members with
      | Some (JStr c) => if in_list c ["A"; "B"] then [c] else []
      | _ => []
      end
  | _ => []
  end.

Definition push_choices (inbox : list json) : list string :=
  flat_map push_choice inbox.

(** Every request of the host fails before an answer arrives. *)
Definition unreachable (h : Host) : Prop :=
  forall tr, reply h tr = PostRaises None.

(** The spellings of the quit signal. *)
Definition quit_spellings : list string :=
  ["quit"; "quiT"; "quIt"; "quIT"; "qUit"; "qUiT"; "qUIt"; "qUIT";
   "Quit"; "QuiT"; "QuIt"; "QuIT"; "QUit"; "QUiT"; "QUIt"; "QUIT"].

(** ** Auxiliary definitions of the proofs *)

(** A computation only adds to the trace. *)
Definition grows {A} (m : M A) : Prop :=
  forall h tr, exists more, snd (m h tr) = (tr ++ more)%list.

(** What a pass of the console loop does on a valid choice. *)
Definition console_turn (fuel : nat) (st : Console.Session) (choice : string)
    : M (Console.flow * Console.Session) :=
  fun h tr =>
    let chosen := append (Console.story_history st) ("User chose: " ++ choice) in
    match Console.call_gemini_api (Console.next_prompt chosen) h tr with
    | (Ret v, tr1) =>
        match Console.illustrate fuel v (Console.scene_counter st) h tr1 with
        | (Ret n, tr2) =>
            (Ret (Console.Next,
                  {| Console.story_history := append chosen ("AI Scene: " ++ shown h v);
                     Console.scene_text := v;
                     Console.scene_counter := n |}), tr2)
        | (Raise e, tr2) => (Raise e, tr2)
        end
    | (Raise e, tr1) => (Raise e, tr1)
    end.

(** What a pass of the push loop does on a valid choice. *)
Definition push_turn (story_history : list string) (choice : string)
    : M (list string) :=
  fun h tr =>
    let chosen := append story_history ("User chose: " ++ choice) in
    match Push.call_gemini_api (Push.next_prompt chosen) h tr with
    | (Ret v, tr1) =>
        match Push.deliver v h tr1 with
        | (Ret _, tr2) => (Ret (append chosen ("AI Scene: " ++ shown h v)), tr2)
        | (Raise e, tr2) => (Raise e, tr2)
        end
    | (Raise e, tr1) => (Raise e, tr1)
    end.

(** The request that opens a turn on [choice]: its prompt carries the
    transcript with the choice line added. *)
Definition console_turn_request (h : Host) (story_history : list string)
    (choice : string) : event :=
  gemini_request h
    (Console.next_prompt (append story_history ("User chose: " ++ choice))).

Definition push_turn_request (h : Host) (story_history : list string)
    (choice : string) : event :=
  gemini_request h
    (Push.next_prompt (append story_history ("User chose: " ++ choice))).

(** ** Runs used in the examples *)

(** A host without an image credential whose text service tells a short
    story: an opening scene and its visual prompt, then a second scene and
    its visual prompt. *)
Definition storyteller : Host :=
  scripted ""
    [ok_json (candidate (JStr "You stand at a gate. A) Enter B) Leave"));
     ok_json (candidate (JStr "  *a knight at an iron gate*  "));
     ok_json (candidate (JStr "The gate creaks open. A) Go on B) Wait"));
     ok_json (candidate (JStr "a dark hall behind a gate"))].

(** A host that has a credential and reaches no service. *)
Definition offline : Host := scripted "hf-key" [].

(** The response of the [RequestException] a request ends in, if it ends
    in one: raised by [requests.post], or by [raise_for_status] on an HTTP
    error status. *)
Definition failure (o : post_outcome) : option (option Response) :=
  match o with
  | PostRaises r => Some r
  | PostReturns r => if is_error_status r then Some (Some r) else None
  end.

(** The console handler takes the failure for a loading notice: the
    exception carries a response that tests true, whose body decodes and
    passes the handler's test with a wait time. *)
Definition taken_for_loading (h : Host) (tr : list event)
    (e_response : option Response) : Prop :=
  exists r error_data wait_time,
    e_response = Some r /\ Response_bool r = true /\
    json_body r = Some error_data /\
    fst (Console.loading_wait error_data h tr) = Ret (Some wait_time).

(** A bare [except] around a call: its exception becomes nothing. *)
Definition swallowed {A} (r : outcome (option A) * list event)
    : outcome (option A) * list event :=
  match r with
  | (Raise _, tr') => (Ret None, tr')
  | other => other
  end.

(** The image service is still loading the model: HTTP 503 with the
    notice as its body. *)
Definition busy (estimated_time : Q) : post_outcome :=
  PostReturns (replied 503 (Some (loading_notice estimated_time))).

(** One attempt of the console illustration client, with [again] standing
    for the nested call. *)
Definition console_attempt (again : M (option Image)) (visual_prompt : string)
    : M (option Image) :=
  h <- ask ;;
  if (HUGGINGFACE_API_KEY h =? "")%string then ret None
  else
    try_RequestException
      (response <- requests_post STABLE_DIFFUSION_API_URL
                     (image_headers (HUGGINGFACE_API_KEY h))
                     (image_payload visual_prompt) ;;
       raise_for_status response ;;
       image <- Image_open response ;;
       ret (Some image))
      (fun e_response =>
         match e_response with
         | Some r =>
             if Response_bool r then
               retried <-
                 try_except
                   (error_data <- Response_json r ;;
                    wait <- Console.loading_wait error_data ;;
                    match wait with
                    | Some wait_time =>
                        time_sleep wait_time ;;
                        image <- again ;;
                        ret (Some image)
                    | None => ret None
                    end)
                   (ret None) ;;
               match retried with
               | Some image => ret image
               | None => ret None
               end
             else ret None
         | None => ret None
         end).

(** A host with a credential whose image service is loading the model at
    the first request and has the picture at the second. *)
Definition warming_up : Host := scripted "hf-key" [busy 20; ok_image "iVBORw0KGgo="].

(** A failure that carries a response which tests true, with a loading
    notice of twenty and a half seconds as its body; the picture is there
    at the second request. *)
Definition redirected : Host :=
  scripted "hf-key"
    [PostRaises (Some (replied 302 (Some (loading_notice (41 # 2)%Q))));
     ok_image "iVBORw0KGgo="].

(** The same failure with an estimate of ten thousand million seconds,
    more than [time.sleep] takes. *)
Definition overlong : Host :=
  scripted "hf-key"
    [PostRaises (Some (replied 302 (Some (loading_notice 10000000000))));
     ok_image "iVBORw0KGgo="].

(** A host whose image service fails with HTTP 500 and a body that is no
    JSON. *)
Definition broken : Host := scripted "hf-key" [PostReturns (replied 500 None)].

(** A host whose image service answers 200 with a body that is no image. *)
Definition garbled : Host := scripted "hf-key" [ok_json (JObj [])].

(** ** main.py: the registry of connections and the endpoint around a
       session *)

From Stdlib Require Import DecimalNat.

Module Server.

(** A connection object, by its identity. *)
Definition WebSocket : Type := nat.

Record ConnectionManager := { active_connections : list WebSocket }.

(** [l.remove(x)]: the first occurrence goes; [None] stands for the
    ValueError on an absent [x]. *)
Fixpoint list_remove (x : WebSocket) (l : list WebSocket)
    : option (list WebSocket) :=
  match l with
  | [] => None
  | y :: rest =>
      if Nat.eqb y x then Some rest
      else match list_remove x rest with
           | Some rest' => Some (y :: rest')
           | None => None
           end
  end.

Definition connect (manager : ConnectionManager) (websocket : WebSocket)
    : ConnectionManager :=
  {| active_connections := append (active_connections manager) websocket |}.

Definition disconnect (manager : ConnectionManager) (websocket : WebSocket)
    : option ConnectionManager :=
  match list_remove websocket (active_connections manager) with
  | Some rest => Some {| active_connections := rest |}
  | None => None
  end.

(** The endpoint of one session with the registry it leaves behind, no
    other session connecting or leaving meanwhile.  The session proper is
    [Push.websocket_endpoint]; it ends normally when the client is gone,
    which is where the handler of WebSocketDisconnect runs; any other
    exception passes the handler by. *)
Definition websocket_endpoint (manager : ConnectionManager)
    (websocket : WebSocket) (inbox : list json)
    : Host -> list event -> (outcome unit * list event) * ConnectionManager :=
  fun h tr =>
    let manager := connect manager websocket in
    match Push.websocket_endpoint inbox h tr with
    | (Ret _, tr') =>
        match disconnect manager websocket with
        | Some manager' => ((Ret tt, tr'), manager')
        | None => ((Raise ValueError, tr'), manager)
        end
    | (Raise e, tr') => ((Raise e, tr'), manager)
    end.

End Server.

(** ** Vocabulary of the further properties *)

(** The name of the n-th illustration of a console session. *)
Definition scene_file (n : nat) : string := "scene_" ++ decimal n ++ ".png".

(** The files a trace saves, in order. *)
Definition saved_paths (tr : list event) : list string :=
  flat_map (fun e => match e with Save path _ => [path] | _ => [] end) tr.

Definition story_message (scene_text : json) : json :=
  JObj [("type", JStr "story"); ("text", scene_text)].

Definition image_message (data : string) : json :=
  JObj [("type", JStr "image"); ("data", JStr data)].

(** The scene of a story message. *)
Definition story_of (e : event) : list json :=
  match e with
  | Send (JObj [(k1, JStr t); (k2, v)]) =>
      if ((k1 =? "type") && (t =? "story") && (k2 =? "text"))%string
      then [v] else []
  | _ => []
  end.

(** The scenes a trace pushes to the client, in order. *)
Definition stories (tr : list event) : list json := flat_map story_of tr.

(** The requests of a trace that go to the text service of [h]. *)
Definition is_gemini_post (h : Host) (e : event) : bool :=
  match e with
  | Post url _ _ => (url =? GEMINI_API_URL ++ GEMINI_API_KEY h)%string
  | _ => false
  end.

Definition gemini_posts (h : Host) (tr : list event) : nat :=
  List.length (filter (is_gemini_post h) tr).

(** What the console illustration client may add to a trace for
    [visual_prompt]: its request, and sleeps of no negative length. *)
Definition image_event (h : Host) (visual_prompt : string) (e : event) : Prop :=
  e = image_request h visual_prompt \/ exists t, e = Sleep t /\ (0 <= t)%Z.

(** What a console session may add to a trace. *)
Definition console_event (h : Host) (e : event) : Prop :=
  (exists prompt, e = gemini_request h prompt) \/
  (exists visual_prompt, image_event h visual_prompt e) \/
  (exists n image, e = Save (scene_file n) image).

(** What a push session may add to a trace. *)
Definition push_event (h : Host) (e : event) : Prop :=
  (exists prompt, e = gemini_request h prompt) \/
  (exists visual_prompt, e = image_request h visual_prompt) \/
  (exists scene_text, e = Send (story_message scene_text)) \/
  (exists data, data <> "" /\ e = Send (image_message data)).

(** What the push session adds for the picture of a scene: the request,
    and the image message when there is a picture. *)
Definition push_image_event (h : Host) (e : event) : Prop :=
  (exists visual_prompt, e = image_request h visual_prompt) \/
  (exists data, data <> "" /\ e = Send (image_message data)).

(** On the host [h], the computation [m] adds to the trace only events
    of the class [P], however it ends. *)
Definition adds (P : event -> Prop) (h : Host) {A} (m : M A) : Prop :=
  forall tr, exists more, snd (m h tr) = (tr ++ more)%list /\ Forall P more.

(** A line the console loop acts on: a choice or the quit signal. *)
Definition console_heeded (line : string) : bool :=
  in_list (upper line) ["A"; "B"; "QUIT"].

(** A message the push loop acts on. *)
Definition push_heeded (data : json) : bool :=
  match push_choice data with
  | [] => false
  | _ => true
  end.

Definition is_object (data : json) : bool :=
  match data with
  | JObj _ => true
  | _ => false
  end.

(** What one attempt of the console illustration client comes to, once
    its request is in the trace [tr1], [again] standing for the nested
    call. *)
Definition console_attempt_result (again : M (option Image)) (h : Host)
    (tr1 : list event) : outcome (option Image) * list event :=
  match reply h tr1 with
  | PostReturns r =>
      if is_error_status r then (Ret None, tr1)
      else (match image_body r with
            | Some image => Ret (Some image)
            | None => Raise UnidentifiedImageError
            end, tr1)
  | PostRaises None => (Ret None, tr1)
  | PostRaises (Some r) =>
      if Response_bool r then
        match json_body r with
        | None => (Ret None, tr1)
        | Some error_data =>
            match fst (Console.loading_wait error_data h tr1) with
            | Ret (Some wait_time) =>
                                                if (wait_time <? 0)%Z then (Ret None, tr1)
                else if (max_sleep h <? wait_time)%Z then (Ret None, tr1)
                else swallowed (again h (tr1 ++ [Sleep wait_time])%list)
            | _ => (Ret None, tr1)
            end
        end
      else (Ret None, tr1)
  end.

(** ** More runs used in the examples *)

(** A host with a credential whose services tell one scene with its
    picture: the scene, its visual prompt, the image. *)
Definition illustrated : Host :=
  scripted "hf-key"
    [ok_json (candidate (JStr "You stand at a gate. A) Enter B) Leave"));
     ok_json (candidate (JStr "  *a knight at an iron gate*  "));
     ok_image "iVBORw0KGgo=";
     ok_json (candidate (JStr "The gate creaks open. A) Go on B) Wait"));
     ok_json (candidate (JStr "a dark hall behind a gate"));
     ok_image "iVBORw0KGgp=" ].

(** A reply with a success status whose picture cannot be written as
    PNG. *)
Definition unwritable : Host :=
  scripted "hf-key"
    [PostReturns {| status_code := 200; text := "";
                    json_body := None;
                    image_body := Some {| png_base64 := None |} |}].

(** A failure that carries a response which tests true, with a loading
    notice whose estimate is negative. *)
Definition confused : Host :=
  scripted "hf-key"
    [PostRaises (Some (replied 302 (Some (loading_notice (-5)))));
     ok_image "iVBORw0KGgo="].

(** A host whose text service answers with a candidate cut short. *)
Definition censoring : Host := scripted "" [ok_json blocked_answer].

(** ** Strings: what [clean] guarantees *)

Section Cleaning.

Lemma occurs_app c s t : occurs c (s ++ t) = occurs c s || occurs c t.
Proof.
  induction s as [|d s IH]; simpl; [reflexivity|].
  now rewrite IH, orb_assoc.
Qed.

Lemma replace_removes old new s :
  occurs old new = false -> occurs old (replace old new s) = false.
Proof.
  intros Hnew. induction s as [|c s IH]; simpl; [reflexivity|].
  destruct (Ascii.eqb c old) eqn:E.
  - now rewrite occurs_app, Hnew, IH.
  - simpl. now rewrite E, IH.
Qed.

Lemma replace_keeps_absent c old new s :
  occurs c new = false -> occurs c s = false ->
  occurs c (replace old new s) = false.
Proof.
  intros Hnew. induction s as [|d s IH]; simpl; [reflexivity|].
  intros H. apply orb_false_iff in H as [Hd Hs].
  destruct (Ascii.eqb d old).
  - now rewrite occurs_app, Hnew, IH.
  - simpl. now rewrite Hd, IH.
Qed.

Lemma app_assoc_string (s t u : string) : (s ++ t) ++ u = s ++ (t ++ u).
Proof. induction s as [|c s IH]; simpl; [reflexivity|]. now rewrite IH. Qed.

Lemma app_empty_right (s : string) : s ++ "" = s.
Proof. induction s as [|c s IH]; simpl; [reflexivity|]. now rewrite IH. Qed.

Lemma string_length_app (s t : string) :
  String.length (s ++ t) = String.length s + String.length t.
Proof. induction s as [|c s IH]; simpl; [reflexivity|]. now rewrite IH. Qed.

(** *** White space, code point by code point *)

Ltac member := vm_compute; repeat (first [left; reflexivity | right]).

Ltac each_byte a :=
  destruct a as [[] [] [] [] [] [] [] []].

Lemma is_space1_in a :
  is_space1 a = true -> In (String a "") unicode_whitespace.
Proof.
  each_byte a; intros H; vm_compute in H; try discriminate H; member.
Qed.

Lemma is_space2_in a b :
  is_space2 a b = true -> In (String a (String b "")) unicode_whitespace.
Proof.
  unfold is_space2. intros H.
  apply andb_true_iff in H as [A B]. apply Ascii.eqb_eq in A. subst a.
  apply orb_true_iff in B as [B|B]; apply Ascii.eqb_eq in B; subst b; member.
Qed.

Lemma is_space3_in a b c :
  is_space3 a b c = true ->
  In (String a (String b (String c ""))) unicode_whitespace.
Proof.
  intros H.
  assert (A : a = "225"%char \/ a = "226"%char \/ a = "227"%char).
  { revert H. unfold is_space3.
    destruct (Ascii.eqb_spec a "225"); [tauto|].
    destruct (Ascii.eqb_spec a "226"); [tauto|].
    destruct (Ascii.eqb_spec a "227"); [tauto|]. discriminate. }
  destruct A as [-> | [-> | ->]].
  - assert (B : b = "154"%char).
    { revert H. unfold is_space3. cbn [Ascii.eqb Bool.eqb andb orb].
      destruct (Ascii.eqb_spec b "154"); [tauto|]. discriminate. }
    subst b.
    assert (C : c = "128"%char).
    { revert H. unfold is_space3. cbn [Ascii.eqb Bool.eqb andb orb].
      destruct (Ascii.eqb_spec c "128"); [tauto|]. discriminate. }
    subst c. member.
  - assert (B : b = "128"%char \/ b = "129"%char).
    { revert H. unfold is_space3. cbn [Ascii.eqb Bool.eqb andb orb].
      destruct (Ascii.eqb_spec b "128"); [tauto|].
      destruct (Ascii.eqb_spec b "129"); [tauto|]. discriminate. }
    destruct B as [->| ->].
    + each_byte c; vm_compute in H; try discriminate H; member.
    + each_byte c; vm_compute in H; try discriminate H; member.
  - assert (B : b = "128"%char).
    { revert H. unfold is_space3. cbn [Ascii.eqb Bool.eqb andb orb].
      destruct (Ascii.eqb_spec b "128"); [tauto|]. discriminate. }
    subst b.
    each_byte c; vm_compute in H; try discriminate H; member.
Qed.

Lemma drop_space_some s r :
  drop_space s = Some r -> exists w, In w unicode_whitespace /\ s = w ++ r.
Proof.
  destruct s as [|a s]; cbn [drop_space]; [discriminate|].
  destruct (is_space1 a) eqn:E1.
  { intros [= <-]. exists (String a ""). split; [now apply is_space1_in|reflexivity]. }
  destruct s as [|b s]; [discriminate|].
  destruct (is_space2 a b) eqn:E2.
  { intros [= <-]. exists (String a (String b "")).
    split; [now apply is_space2_in|reflexivity]. }
  destruct s as [|c s]; [discriminate|].
  destruct (is_space3 a b c) eqn:E3; [|discriminate].
  intros [= <-]. exists (String a (String b (String c ""))).
  split; [now apply is_space3_in|reflexivity].
Qed.

Lemma drop_space_in w r : In w unicode_whitespace -> drop_space (w ++ r) = Some r.
Proof.
  intros H. vm_compute in H.
  repeat (destruct H as [<-|H]; [reflexivity|]). contradiction.
Qed.

Lemma whitespace_all_space w : In w unicode_whitespace -> all_space w = true.
Proof.
  intros H. vm_compute in H.
  repeat (destruct H as [<-|H]; [reflexivity|]). contradiction.
Qed.

Lemma whitespace_not_empty w : In w unicode_whitespace -> w <> "".
Proof.
  intros H. vm_compute in H.
  repeat (destruct H as [<-|H]; [discriminate|]). contradiction.
Qed.

Lemma all_space_step s :
  all_space s = match drop_space s with
                | Some r => all_space r
                | None => match s with EmptyString => true | _ => false end
                end.
Proof.
  destruct s as [|a s]; [reflexivity|]. cbn [all_space drop_space].
  destruct (is_space1 a); [reflexivity|].
  destruct s as [|b s]; [reflexivity|].
  destruct (is_space2 a b); [reflexivity|].
  destruct s as [|c s]; [reflexivity|].
  destruct (is_space3 a b c); reflexivity.
Qed.

Lemma lstrip_step s :
  lstrip s = match drop_space s with Some r => lstrip r | None => s end.
Proof.
  destruct s as [|a s]; [reflexivity|]. cbn [lstrip drop_space].
  destruct (is_space1 a); [reflexivity|].
  destruct s as [|b s]; [reflexivity|].
  destruct (is_space2 a b); [reflexivity|].
  destruct s as [|c s]; [reflexivity|].
  destruct (is_space3 a b c); reflexivity.
Qed.

Lemma drop_space_shorter s r :
  drop_space s = Some r -> String.length r < String.length s.
Proof.
  intros H. apply drop_space_some in H as (w & Hw & ->).
  rewrite string_length_app. apply whitespace_not_empty in Hw.
  destruct w; [contradiction|]. simpl. lia.
Qed.

(** Induction along the white space at the start of a text. *)
Lemma space_ind (P : string -> Prop) :
  (forall s, drop_space s = None -> P s) ->
  (forall s r, drop_space s = Some r -> P r -> P s) ->
  forall s, P s.
Proof.
  intros Hnone Hsome s.
  remember (String.length s) as n eqn:L.
  revert s L. induction n as [n IH] using lt_wf_ind. intros s ->.
  destruct (drop_space s) as [r|] eqn:E.
  - apply (Hsome s r E). apply (IH (String.length r)); [|reflexivity].
    now apply drop_space_shorter.
  - now apply Hnone.
Qed.

Lemma drop_space_app p q r :
  drop_space p = Some r -> drop_space (p ++ q) = Some (r ++ q).
Proof.
  intros H. apply drop_space_some in H as (w & Hw & ->).
  rewrite app_assoc_string. now apply drop_space_in.
Qed.

Lemma all_space_blank s : all_space s = true -> blank s.
Proof.
  induction s as [s E|s r E IH] using space_ind;
    rewrite all_space_step, E.
  - destruct s; [constructor|discriminate].
  - intros H. apply drop_space_some in E as (w & Hw & ->).
    apply blank_more; auto.
Qed.

Lemma all_space_app s t :
  all_space s = true -> all_space t = true -> all_space (s ++ t) = true.
Proof.
  induction s as [s E|s r E IH] using space_ind;
    rewrite (all_space_step s), E.
  - destruct s; [auto|discriminate].
  - intros Hr Ht. rewrite all_space_step, (drop_space_app _ t _ E). auto.
Qed.

Lemma lstrip_split s :
  exists lead, blank lead /\ s = lead ++ lstrip s.
Proof.
  induction s as [s E|s r E IH] using space_ind; rewrite lstrip_step, E.
  - exists "". split; [constructor|reflexivity].
  - destruct IH as (lead & B & Hr).
    apply drop_space_some in E as (w & Hw & ->).
    exists (w ++ lead). split; [now apply blank_more|].
    rewrite app_assoc_string. now rewrite <- Hr.
Qed.

Lemma lstrip_done s : drop_space (lstrip s) = None.
Proof.
  induction s as [s E|s r E IH] using space_ind; rewrite lstrip_step, E; auto.
Qed.

Lemma lstrip_fixed s : drop_space s = None -> lstrip s = s.
Proof. intros E. now rewrite lstrip_step, E. Qed.

Lemma rstrip_split s :
  exists trail, all_space trail = true /\ s = rstrip s ++ trail.
Proof.
  induction s as [|c s IH]; [now exists ""|].
  cbn [rstrip]. destruct (all_space (String c s)) eqn:E.
  - now exists (String c s).
  - destruct IH as (trail & B & Hs). exists trail. split; [exact B|].
    simpl. now rewrite <- Hs.
Qed.

Lemma rstrip_not_all_space s : all_space s = false -> all_space (rstrip s) = false.
Proof.
  intros H. destruct (all_space (rstrip s)) eqn:E; [|reflexivity].
  destruct (rstrip_split s) as (trail & B & Hs).
  rewrite Hs, (all_space_app _ _ E B) in H. discriminate.
Qed.

Lemma rstrip_no_tail s p q :
  rstrip s = p ++ q -> q <> "" -> all_space q = false.
Proof.
  revert p. induction s as [|c s IH]; intros p H Q.
  - destruct p; simpl in H; [congruence|discriminate].
  - pose proof (rstrip_not_all_space (String c s)) as L.
    cbn [rstrip] in H, L. destruct (all_space (String c s)) eqn:E.
    + destruct p; simpl in H; [congruence|discriminate].
    + destruct p as [|d p]; simpl in H.
      * subst q. now apply L.
      * injection H as _ H. now apply (IH p).
Qed.

Lemma rstrip_fixed s :
  (forall p q, s = p ++ q -> q <> "" -> all_space q = false) -> rstrip s = s.
Proof.
  induction s as [|c s IH]; [reflexivity|]. intros H. cbn [rstrip].
  rewrite (H "" (String c s) eq_refl); [|discriminate].
  rewrite IH; [reflexivity|].
  intros p q -> Q. now apply (H (String c p) q).
Qed.

Lemma strip_done s : drop_space (strip s) = None.
Proof.
  unfold strip. destruct (drop_space (rstrip (lstrip s))) as [r|] eqn:E; [|reflexivity].
  destruct (rstrip_split (lstrip s)) as (trail & _ & Hs).
  apply (drop_space_app _ trail) in E. rewrite <- Hs, lstrip_done in E.
  discriminate.
Qed.

Lemma strip_trimmed s : trimmed (strip s).
Proof.
  intros w Hw. split.
  - intros [r H]. pose proof (strip_done s) as D.
    rewrite H, (drop_space_in _ _ Hw) in D. discriminate.
  - intros [r H]. unfold strip in H.
    apply rstrip_no_tail in H; [|now apply whitespace_not_empty].
    rewrite (whitespace_all_space _ Hw) in H. discriminate.
Qed.

Lemma strip_strip s : strip (strip s) = strip s.
Proof.
  unfold strip at 1. rewrite (lstrip_fixed _ (strip_done s)).
  apply rstrip_fixed. intros p q. unfold strip. apply rstrip_no_tail.
Qed.

(** What [strip] takes away is white space, and nothing else. *)
Lemma strip_split s :
  exists lead trail, blank lead /\ blank trail /\ s = lead ++ strip s ++ trail.
Proof.
  destruct (lstrip_split s) as (lead & L & Hs).
  destruct (rstrip_split (lstrip s)) as (trail & T & Ht).
  exists lead, trail. split; [exact L|]. split; [now apply all_space_blank|].
  unfold strip. now rewrite <- Ht.
Qed.

Lemma strip_keeps_absent c s : occurs c s = false -> occurs c (strip s) = false.
Proof.
  destruct (strip_split s) as (lead & trail & _ & _ & Hs).
  intros H. rewrite Hs, !occurs_app in H.
  apply orb_false_iff in H as [_ H]. now apply orb_false_iff in H as [H _].
Qed.

Lemma length_strip s : String.length (strip s) <= String.length s.
Proof.
  destruct (strip_split s) as (lead & trail & _ & _ & Hs).
  rewrite Hs at 2. rewrite !string_length_app. lia.
Qed.

(** The two replacements of [clean], character by character. *)
Lemma replace_rewritten s :
  replace "*" "" (replace newline " " s) = rewritten s.
Proof.
  unfold rewritten.
  induction s as [|c s IH]; [reflexivity|].
  cbn [replace list_ascii_of_string flat_map].
  destruct (Ascii.eqb_spec c newline) as [->|N].
  - simpl. now rewrite IH.
  - cbn [replace]. destruct (Ascii.eqb c "*"); simpl; now rewrite IH.
Qed.

Lemma clean_no_newline s : occurs newline (clean s) = false.
Proof.
  unfold clean. apply strip_keeps_absent.
  apply replace_keeps_absent; [reflexivity|].
  now apply replace_removes.
Qed.

Lemma clean_no_star s : occurs "*" (clean s) = false.
Proof.
  unfold clean. apply strip_keeps_absent.
  now apply replace_removes.
Qed.

Lemma clean_rewritten s :
  exists lead trail,
    blank lead /\ blank trail /\ rewritten s = lead ++ clean s ++ trail.
Proof.
  unfold clean. rewrite <- replace_rewritten. apply strip_split.
Qed.

End Cleaning.

(** ** The completion client *)

Ltac run :=
  unfold bind, ret, raise, ask, emit, try_RequestException, try_except,
    requests_post, raise_for_status, Response_json, Image_open,
    py_get, py_str, clean_value in *; simpl in *.

Lemma first_candidate_text_select data h tr :
  match select candidate_text_path data with
  | Some v => first_candidate_text data h tr = (Ret v, tr)
  | None => exists e, structural e /\ first_candidate_text data h tr = (Raise e, tr)
  end.
Proof.
  unfold first_candidate_text, candidate_text_path, structural, getitem, getitem0.
  run.
  repeat (match goal with
          | |- context [match ?x with _ => _ end] => is_var x; destruct x; simpl
          | |- context [match lookup ?k ?m with _ => _ end] =>
              destruct (lookup k m); simpl
          end);
  try reflexivity; eexists; (split; [|reflexivity]); auto.
Qed.

#[local] Arguments first_candidate_text : simpl never.
#[local] Arguments String.append : simpl never.
#[local] Arguments select : simpl never.

Lemma console_call_gemini_api_answers h prompt tr :
  let tr' := (tr ++ [gemini_request h prompt])%list in
  snd (Console.call_gemini_api prompt h tr) = tr' /\
  answers "Error: The AI returned an unexpected text response."
          "Error: Could not connect to the AI."
          (reply h tr') (fst (Console.call_gemini_api prompt h tr)).
Proof.
  unfold Console.call_gemini_api, answers, decoded, gemini_request. run.
  destruct (reply h _) as [r|r]; simpl; [now split|].
  destruct (is_error_status r); simpl; [now split|].
  destruct (json_body r) as [data|]; simpl; [|now split].
  destruct data as [| | | | |members]; simpl; try now split.
  set (c := match lookup "candidates" members with Some x => x | None => JNull end).
  destruct (truthy c); simpl; [|now split].
  pose proof (first_candidate_text_select (JObj members) h
                (tr ++ [Post (GEMINI_API_URL ++ GEMINI_API_KEY h) gemini_headers
                          (gemini_payload prompt)])%list) as P.
  destruct (select candidate_text_path (JObj members)) as [v|].
  - rewrite P. simpl. now split.
  - destruct P as (e & He & P). rewrite P.
    destruct He as [->|[->|[->| ->]]]; simpl; (split; [reflexivity|]);
      eexists; (split; [|reflexivity]); unfold structural; auto.
Qed.

Lemma push_call_gemini_api_answers h prompt tr :
  let tr' := (tr ++ [gemini_request h prompt])%list in
  snd (Push.call_gemini_api prompt h tr) = tr' /\
  answers "Error: The AI storyteller is currently unavailable."
          "Error: The AI storyteller is currently unavailable."
          (reply h tr') (fst (Push.call_gemini_api prompt h tr)).
Proof.
  unfold Push.call_gemini_api, answers, decoded, gemini_request. run.
  destruct (reply h _) as [r|r]; simpl; [now split|].
  destruct (is_error_status r); simpl; [now split|].
  destruct (json_body r) as [data|]; simpl; [|now split].
  destruct data as [| | | | |members]; simpl; try now split.
  set (c := match lookup "candidates" members with Some x => x | None => JNull end).
  destruct (truthy c); simpl; [|now split].
  pose proof (first_candidate_text_select (JObj members) h
                (tr ++ [Post (GEMINI_API_URL ++ GEMINI_API_KEY h) gemini_headers
                          (gemini_payload prompt)])%list) as P.
  destruct (select candidate_text_path (JObj members)) as [v|].
  - rewrite P. simpl. now split.
  - destruct P as (e & He & P). rewrite P.
    destruct He as [->|[->|[->| ->]]]; simpl; (split; [reflexivity|]);
      eexists; (split; [|reflexivity]); unfold structural; auto.
Qed.

Lemma select_candidate_text data v :
  select candidate_text_path data = Some v ->
  exists members c,
    data = JObj members /\ lookup "candidates" members = Some c /\ truthy c = true.
Proof.
  unfold candidate_text_path, select.
  destruct data as [| | | | |members]; try discriminate.
  destruct (lookup "candidates" members) as [c|] eqn:L; [|discriminate].
  destruct c as [| | | |[|x items]|]; try discriminate.
  intros _. exists members, (JArr (x :: items)). now rewrite L.
Qed.

Lemma answers_cases unexpected unreachable o result :
  answers unexpected unreachable o result ->
  (decoded o = None -> result = Ret (JStr unreachable)) /\
  (forall members,
     decoded o = Some (JObj members) ->
     truthy (match lookup "candidates" members with
             | Some c => c
             | None => JNull
             end) = false ->
     result = Ret (JStr unexpected)) /\
  (forall data v,
     decoded o = Some data -> select candidate_text_path data = Some v ->
     result = Ret v) /\
  (forall r, result <> Raise (RequestException r)).
Proof.
  unfold answers. intros H. repeat apply conj.
  - intros E. now rewrite E in H.
  - intros members E T. now rewrite E, T in H.
  - intros data v E S. rewrite E in H.
    destruct (select_candidate_text _ _ S) as (members & c & -> & L & T).
    now rewrite L, T, S in H.
  - intros r. destruct (decoded o) as [[| | | | |members]|]; try congruence.
    destruct (truthy _); [|congruence].
    destruct (select _ _); [congruence|].
    destruct H as (e & [->|[->|[->| ->]]] & ->); discriminate.
Qed.

(** C1, as amended.  For every prompt, [call_gemini_api] posts exactly one
    request (no retry) and never lets a RequestException out.  A
    transport-level failure (no connection, an HTTP error status, a body
    that is not JSON) is caught and becomes the variant's sentinel: "Error:
    Could not connect to the AI." in the console variant, "Error: The AI
    storyteller is currently unavailable." in the push variant.  A decoded
    object whose candidates member is missing or tests false becomes a
    sentinel too: "Error: The AI returned an unexpected text response." in
    the console variant, the same sentinel as before in the push variant.
    A document that has candidates[0].content.parts[0].text yields that
    value as it is, the empty text included. *)
Theorem call_gemini_api_contract (h : Host) (prompt : string) (tr : list event) :
  let tr' := (tr ++ [gemini_request h prompt])%list in
  let console := Console.call_gemini_api prompt h tr in
  let push := Push.call_gemini_api prompt h tr in
  (snd console = tr' /\ snd push = tr') /\
  (forall r, fst console <> Raise (RequestException r) /\
             fst push <> Raise (RequestException r)) /\
  (decoded (reply h tr') = None ->
   fst console = Ret (JStr "Error: Could not connect to the AI.") /\
   fst push = Ret (JStr "Error: The AI storyteller is currently unavailable.")) /\
  (forall members,
     decoded (reply h tr') = Some (JObj members) ->
     truthy (match lookup "candidates" members with
             | Some c => c
             | None => JNull
             end) = false ->
     fst console = Ret (JStr "Error: The AI returned an unexpected text response.") /\
     fst push = Ret (JStr "Error: The AI storyteller is currently unavailable.")) /\
  (forall data v,
     decoded (reply h tr') = Some data ->
     select candidate_text_path data = Some v ->
     fst console = Ret v /\ fst push = Ret v).
Proof.
  intros tr' console push.
  destruct (console_call_gemini_api_answers h prompt tr) as [C1 C2].
  destruct (push_call_gemini_api_answers h prompt tr) as [P1 P2].
  apply answers_cases in C2. destruct C2 as (Ca & Cb & Cc & Cd).
  apply answers_cases in P2. destruct P2 as (Pa & Pb & Pc & Pd).
  subst tr' console push. repeat apply conj; auto.
  - intros members E T. split; [now apply (Cb members)|now apply (Pb members)].
  - intros data v E S. split; [now apply (Cc data)|now apply (Pc data)].
Qed.

Lemma call_gemini_api_contract_witness :
  fst (Console.call_gemini_api "Describe the opening scene." storyteller [])
    = Ret (JStr "You stand at a gate. A) Enter B) Leave") /\
  fst (Push.call_gemini_api "Describe the opening scene." storyteller [])
    = Ret (JStr "You stand at a gate. A) Enter B) Leave").
Proof.
  apply (proj2 (proj2 (proj2 (proj2
           (call_gemini_api_contract storyteller "Describe the opening scene." []))))
           (candidate (JStr "You stand at a gate. A) Enter B) Leave"))).
  - reflexivity.
  - reflexivity.
Defined.

(** C1 as stated fails: on a candidate without a content member both
    clients let a KeyError out, and on an empty candidate text the result is
    the empty text, which is neither non-empty nor a sentinel. *)
Lemma call_gemini_api_raises :
  fst (Console.call_gemini_api "p" (scripted "" [ok_json blocked_answer]) [])
    = Raise KeyError /\
  fst (Push.call_gemini_api "p" (scripted "" [ok_json blocked_answer]) [])
    = Raise KeyError /\
  fst (Console.call_gemini_api "p" (scripted "" [ok_json (candidate (JStr ""))]) [])
    = Ret (JStr "").
Proof. repeat split; reflexivity. Qed.

(** ** The illustration client without a credential *)

(** C5.  When HUGGINGFACE_API_KEY is missing (the empty default of
    [os.getenv]), the illustration client of either variant returns nothing
    and leaves the trace as it was: no request is posted, for any input and
    any fuel. *)
Theorem no_credential_no_request (fuel : nat) (visual_prompt : string)
    (h : Host) (tr : list event) :
  HUGGINGFACE_API_KEY h = "" ->
  Console.generate_image_with_stable_diffusion fuel visual_prompt h tr
    = (Ret None, tr) /\
  Push.generate_image_with_stable_diffusion visual_prompt h tr = (Ret None, tr).
Proof.
  intros Hkey. split.
  - destruct fuel; simpl; run; now rewrite Hkey.
  - unfold Push.generate_image_with_stable_diffusion. run. now rewrite Hkey.
Qed.

Lemma no_credential_no_request_witness :
  Console.generate_image_with_stable_diffusion 1 "a castle"
    (scripted "" [ok_image "iVBORw0KGgo="]) [] = (Ret None, []) /\
  Push.generate_image_with_stable_diffusion "a castle"
    (scripted "" [ok_image "iVBORw0KGgo="]) [] = (Ret None, []).
Proof.
  apply (no_credential_no_request 1 "a castle"
           (scripted "" [ok_image "iVBORw0KGgo="]) []).
  reflexivity.
Defined.

(** ** The image-prompt deriver *)

Lemma clean_tidy s : tidy (clean s).
Proof.
  split; [apply clean_no_newline|]. split; [apply clean_no_star|].
  apply strip_trimmed.
Qed.

Lemma console_visual_prompt_derived story_text h tr :
  derived
    (Console.call_gemini_api (Console.visual_prompt_request (shown h story_text)) h tr)
    (Console.generate_visual_prompt story_text h tr).
Proof.
  unfold Console.generate_visual_prompt, derived, shown. run.
  destruct story_text; simpl;
    match goal with
    | |- context [Console.call_gemini_api ?p h tr] =>
        destruct (Console.call_gemini_api p h tr) as [[v|e] tr']
    end; try reflexivity; destruct v; reflexivity.
Qed.

Lemma push_visual_prompt_derived story_text h tr :
  derived
    (Push.call_gemini_api (Push.visual_prompt_request (shown h story_text)) h tr)
    (Push.generate_visual_prompt_async story_text h tr).
Proof.
  unfold Push.generate_visual_prompt_async, Push.call_gemini_api_async,
    derived, shown. run.
  destruct story_text; simpl;
    match goal with
    | |- context [Push.call_gemini_api ?p h tr] =>
        destruct (Push.call_gemini_api p h tr) as [[v|e] tr']
    end; try reflexivity; destruct v; reflexivity.
Qed.

Lemma derived_tidy client deriver s tr' :
  derived client deriver -> deriver = (Ret s, tr') -> tidy s.
Proof.
  unfold derived. destruct client as [[v|e] tr1].
  - destruct v; intros -> H; try discriminate.
    inversion H; subst. apply clean_tidy.
  - intros -> H; discriminate.
Qed.

(** C7.  For every narrative passage, the image-prompt deriver of either
    variant hands the templated passage to the completion client and
    returns that client's text post-processed: every line feed replaced by
    a blank, every '*' removed, and the white space at both ends stripped.
    So the result is the answer, rewritten character by character, less
    white space at its two ends, and whatever is returned contains no line
    feed and no '*', and neither starts nor ends with white space.  (An
    exception of the client passes through, and a result that is no text
    has no [replace].) *)
Theorem visual_prompt_is_tidy (story_text : json) (h : Host) (tr : list event) :
  (derived
     (Console.call_gemini_api (Console.visual_prompt_request (shown h story_text)) h tr)
     (Console.generate_visual_prompt story_text h tr) /\
   derived
     (Push.call_gemini_api (Push.visual_prompt_request (shown h story_text)) h tr)
     (Push.generate_visual_prompt_async story_text h tr)) /\
  (forall answer,
     tidy (clean answer) /\
     exists lead trail,
       blank lead /\ blank trail /\
       rewritten answer = lead ++ clean answer ++ trail) /\
  (forall s tr',
     Console.generate_visual_prompt story_text h tr = (Ret s, tr') \/
     Push.generate_visual_prompt_async story_text h tr = (Ret s, tr') ->
     tidy s).
Proof.
  split; [split|split].
  - apply console_visual_prompt_derived.
  - apply push_visual_prompt_derived.
  - intros answer. split; [apply clean_tidy|apply clean_rewritten].
  - intros s tr' [H|H].
    + exact (derived_tidy _ _ _ _ (console_visual_prompt_derived _ _ _) H).
    + exact (derived_tidy _ _ _ _ (push_visual_prompt_derived _ _ _) H).
Qed.

Lemma visual_prompt_is_tidy_witness : tidy "a knight at an iron gate".
Proof.
  apply (proj2 (proj2 (visual_prompt_is_tidy (JStr "You stand at a gate.")
                         (scripted ""
                            [ok_json (candidate
                               (JStr (utf8 [194; 160] ++ "*a knight at an iron gate*"
                                      ++ utf8 [226; 128; 137; 10])))])
                         []))
           "a knight at an iron gate"
           (snd (Console.generate_visual_prompt (JStr "You stand at a gate.")
                   (scripted ""
                      [ok_json (candidate
                         (JStr (utf8 [194; 160] ++ "*a knight at an iron gate*"
                                ++ utf8 [226; 128; 137; 10])))])
                   []))).
  left. reflexivity.
Defined.

(** The white space that goes is Python's: a no-break space at either end
    is stripped as a blank is. *)
Example clean_strips_no_break_space :
  clean (utf8 [194; 160] ++ "a castle" ++ utf8 [194; 160]) = "a castle".
Proof. reflexivity. Qed.

(** ** The trace only grows *)

Section Grows.

Context {A B : Type}.

Lemma grows_ret (a : A) : grows (ret a).
Proof. intros h tr. exists []. simpl. now rewrite app_nil_r. Qed.

Lemma grows_raise (e : exn) : grows (@raise A e).
Proof. intros h tr. exists []. simpl. now rewrite app_nil_r. Qed.

Lemma grows_bind (m : M A) (k : A -> M B) :
  grows m -> (forall a, grows (k a)) -> grows (bind m k).
Proof.
  intros Hm Hk h tr. unfold bind.
  destruct (Hm h tr) as [more1 E1].
  destruct (m h tr) as [[a|e] tr1]; simpl in *; subst.
  - destruct (Hk a h (tr ++ more1)%list) as [more2 E2].
    exists (more1 ++ more2)%list. now rewrite E2, app_assoc.
  - now exists more1.
Qed.

Lemma grows_try_RequestException (m : M A) (k : option Response -> M A) :
  grows m -> (forall r, grows (k r)) -> grows (try_RequestException m k).
Proof.
  intros Hm Hk h tr. unfold try_RequestException.
  destruct (Hm h tr) as [more1 E1].
  destruct (m h tr) as [[a|e] tr1]; simpl in *; subst; try now exists more1.
  destruct e; try now exists more1.
  destruct (Hk response h (tr ++ more1)%list) as [more2 E2].
  exists (more1 ++ more2)%list. now rewrite E2, app_assoc.
Qed.

Lemma grows_try_except (m k : M A) :
  grows m -> grows k -> grows (try_except m k).
Proof.
  intros Hm Hk h tr. unfold try_except.
  destruct (Hm h tr) as [more1 E1].
  destruct (m h tr) as [[a|e] tr1]; simpl in *; subst; try now exists more1.
  destruct (Hk h (tr ++ more1)%list) as [more2 E2].
  exists (more1 ++ more2)%list. now rewrite E2, app_assoc.
Qed.

End Grows.

Lemma grows_ask : grows ask.
Proof. intros h tr. exists []. simpl. now rewrite app_nil_r. Qed.

Lemma grows_emit e : grows (emit e).
Proof. intros h tr. now exists [e]. Qed.

Lemma grows_requests_post url headers body :
  grows (requests_post url headers body).
Proof.
  intros h tr. exists [Post url headers body]. unfold requests_post.
  now destruct (reply h _).
Qed.

Create HintDb grows.

Ltac grow :=
  repeat first
    [ solve [auto 1 with grows nocore]
    | apply grows_bind; [|intros ?]
    | apply grows_try_RequestException; [|intros ?]
    | apply grows_try_except
    | match goal with
      | |- grows (match ?x with _ => _ end) => destruct x
      | |- grows (if ?b then _ else _) => destruct b
      end ].

#[local] Hint Resolve grows_ask grows_emit grows_requests_post : grows.
#[local] Hint Extern 0 (grows (ret _)) => apply grows_ret : grows.
#[local] Hint Extern 0 (grows (raise _)) => apply grows_raise : grows.

Lemma grows_getitem v key : grows (getitem v key).
Proof. unfold getitem. grow. Qed.

Lemma grows_getitem0 v : grows (getitem0 v).
Proof. unfold getitem0. grow. Qed.

Lemma grows_py_get v key default : grows (py_get v key default).
Proof. unfold py_get. grow. Qed.

Lemma grows_py_in key v : grows (py_in key v).
Proof. unfold py_in. grow. Qed.

Lemma grows_py_str v : grows (py_str v).
Proof. unfold py_str. grow. Qed.

Lemma grows_py_int v : grows (py_int v).
Proof. unfold py_int. grow. Qed.

Lemma grows_clean_value v : grows (clean_value v).
Proof. unfold clean_value. grow. Qed.

Lemma grows_raise_for_status r : grows (raise_for_status r).
Proof. unfold raise_for_status. grow. Qed.

Lemma grows_Response_json r : grows (Response_json r).
Proof. unfold Response_json. grow. Qed.

Lemma grows_Image_open r : grows (Image_open r).
Proof. unfold Image_open. grow. Qed.

Lemma grows_time_sleep seconds : grows (time_sleep seconds).
Proof. unfold time_sleep. grow. Qed.

Lemma grows_png_encode image : grows (png_encode image).
Proof. unfold png_encode. grow. Qed.

Lemma grows_image_save path image : grows (image_save path image).
Proof.
  intros h tr. unfold image_save.
  destruct (png_base64 image); [destruct (writable h tr path)|]; simpl.
  - now exists [Save path image].
  - exists []. now rewrite app_nil_r.
  - exists []. now rewrite app_nil_r.
Qed.

#[local] Hint Resolve grows_getitem grows_getitem0 grows_py_get grows_py_in
  grows_py_str grows_py_int grows_clean_value grows_raise_for_status
  grows_Response_json grows_Image_open grows_time_sleep grows_png_encode
  grows_image_save : grows.

Lemma grows_first_candidate_text data : grows (first_candidate_text data).
Proof. unfold first_candidate_text. grow. Qed.

#[local] Hint Resolve grows_first_candidate_text : grows.

Lemma grows_console_call_gemini_api prompt : grows (Console.call_gemini_api prompt).
Proof. unfold Console.call_gemini_api. grow. Qed.

Lemma grows_push_call_gemini_api prompt : grows (Push.call_gemini_api prompt).
Proof. unfold Push.call_gemini_api. grow. Qed.

#[local] Hint Resolve grows_console_call_gemini_api grows_push_call_gemini_api : grows.

Lemma grows_console_generate_visual_prompt story_text :
  grows (Console.generate_visual_prompt story_text).
Proof. unfold Console.generate_visual_prompt. grow. Qed.

Lemma grows_push_generate_visual_prompt_async story_text :
  grows (Push.generate_visual_prompt_async story_text).
Proof.
  unfold Push.generate_visual_prompt_async, Push.call_gemini_api_async. grow.
Qed.

Lemma grows_loading_wait error_data : grows (Console.loading_wait error_data).
Proof. unfold Console.loading_wait. grow. Qed.

#[local] Hint Resolve grows_console_generate_visual_prompt
  grows_push_generate_visual_prompt_async grows_loading_wait : grows.

Lemma grows_console_generate_image fuel visual_prompt :
  grows (Console.generate_image_with_stable_diffusion fuel visual_prompt).
Proof.
  induction fuel as [|fuel IH]; simpl; grow; apply IH.
Qed.

Lemma grows_push_generate_image visual_prompt :
  grows (Push.generate_image_with_stable_diffusion visual_prompt).
Proof. unfold Push.generate_image_with_stable_diffusion. grow. Qed.

#[local] Hint Resolve grows_console_generate_image grows_push_generate_image : grows.

Lemma grows_console_illustrate fuel scene_text scene_counter :
  grows (Console.illustrate fuel scene_text scene_counter).
Proof. unfold Console.illustrate. grow. Qed.

Lemma grows_push_deliver scene_text : grows (Push.deliver scene_text).
Proof. unfold Push.deliver, Push.generate_image_async. grow. Qed.

#[local] Hint Resolve grows_console_illustrate grows_push_deliver : grows.

(** ** The session loops, pass by pass *)

#[local] Arguments in_list : simpl never.

Lemma py_str_shown v h tr : py_str v h tr = (Ret (shown h v), tr).
Proof. destruct v; reflexivity. Qed.

Lemma in_AB c : in_list c ["A"; "B"] = true <-> c = "A" \/ c = "B".
Proof.
  unfold in_list. simpl. rewrite orb_false_r, orb_true_iff, !String.eqb_eq.
  tauto.
Qed.

Lemma not_in_AB c : c <> "A" -> c <> "B" -> in_list c ["A"; "B"] = false.
Proof.
  intros HA HB. destruct (in_list c ["A"; "B"]) eqn:E; [|reflexivity].
  apply in_AB in E. tauto.
Qed.

Lemma console_loop_body_invalid fuel st line h tr :
  upper line <> "A" -> upper line <> "B" ->
  Console.loop_body fuel st line h tr
  = (Ret (if (upper line =? "QUIT")%string then Console.Break else Console.Next, st), tr).
Proof.
  intros HA HB. unfold Console.loop_body.
  destruct (String.eqb (upper line) "QUIT"); [reflexivity|].
  now rewrite (not_in_AB _ HA HB).
Qed.

Lemma console_loop_body_valid fuel st line h tr :
  in_list (upper line) ["A"; "B"] = true ->
  Console.loop_body fuel st line h tr = console_turn fuel st (upper line) h tr.
Proof.
  intros H. unfold Console.loop_body, console_turn.
  destruct (String.eqb_spec (upper line) "QUIT") as [E|_].
  - rewrite E in H. discriminate.
  - rewrite H. simpl. unfold bind.
    destruct (Console.call_gemini_api _ h tr) as [[v|e] tr1]; try reflexivity.
    rewrite py_str_shown.
    destruct (Console.illustrate fuel v _ h tr1) as [[n|e] tr2]; reflexivity.
Qed.

Lemma push_loop_body_invalid story_history members h tr :
  lookup "choice" members <> Some (JStr "A") ->
  lookup "choice" members <> Some (JStr "B") ->
  Push.loop_body story_history (JObj members) h tr = (Ret story_history, tr).
Proof.
  intros HA HB. unfold Push.loop_body, py_get, bind, ret.
  destruct (lookup "choice" members) as [[| | |s| |]|]; simpl; try reflexivity.
  destruct (String.eqb_spec s "A") as [->|_]; [congruence|].
  destruct (String.eqb_spec s "B") as [->|_]; [congruence|].
  reflexivity.
Qed.

Lemma push_loop_body_valid story_history members c h tr :
  lookup "choice" members = Some (JStr c) ->
  in_list c ["A"; "B"] = true ->
  Push.loop_body story_history (JObj members) h tr = push_turn story_history c h tr.
Proof.
  intros E H. unfold Push.loop_body, push_turn, py_get, bind, ret.
  rewrite E. simpl.
  replace ((c =? "A") || (c =? "B"))%string with true
    by (unfold in_list in H; simpl in H; now rewrite orb_false_r in H).
  simpl. unfold Push.call_gemini_api_async.
  destruct (Push.call_gemini_api _ h tr) as [[v|e] tr1]; try reflexivity.
  rewrite py_str_shown.
  destruct (Push.deliver v h tr1) as [[[]|e] tr2]; reflexivity.
Qed.

Lemma push_loop_body_not_object story_history data h tr :
  (forall members, data <> JObj members) ->
  Push.loop_body story_history data h tr = (Raise AttributeError, tr).
Proof.
  intros H. destruct data; try reflexivity. now destruct (H members).
Qed.

(** ** The transcript over a whole session *)

Lemma console_game_loop_nil fuel st h tr :
  Console.game_loop fuel st [] h tr
  = match Console.scene_text st with
    | JStr _ => (Raise EOFError, tr)
    | _ => (Raise AttributeError, tr)
    end.
Proof.
  cbn [Console.game_loop]. unfold bind at 1.
  now destruct (Console.scene_text st).
Qed.

Lemma console_game_loop_cons fuel st line rest h tr :
  Console.game_loop fuel st (line :: rest) h tr
  = match Console.scene_text st with
    | JStr _ =>
        match Console.loop_body fuel st line h tr with
        | (Ret (Console.Break, st'), tr') => (Ret st', tr')
        | (Ret (Console.Next, st'), tr') => Console.game_loop fuel st' rest h tr'
        | (Raise e, tr') => (Raise e, tr')
        end
    | _ => (Raise AttributeError, tr)
    end.
Proof.
  cbn [Console.game_loop]. unfold bind at 1.
  destruct (Console.scene_text st); try reflexivity.
  unfold Console.print_scene, ret at 1, bind.
  now destruct (Console.loop_body fuel st line h tr) as [[[[|] st1]|e] tr1].
Qed.

Lemma console_game_loop_no_text fuel st stdin h tr :
  (forall s, Console.scene_text st <> JStr s) ->
  Console.game_loop fuel st stdin h tr = (Raise AttributeError, tr).
Proof.
  intros H.
  destruct stdin; [rewrite console_game_loop_nil|rewrite console_game_loop_cons];
    destruct (Console.scene_text st); try reflexivity;
    now destruct (H _ eq_refl).
Qed.

Lemma console_game_loop_history fuel h stdin :
  forall st tr st' tr',
    Console.game_loop fuel st stdin h tr = (Ret st', tr') ->
    exists turns,
      Console.story_history st' = (Console.story_history st ++ turn_lines turns)%list /\
      map fst turns = console_choices stdin.
Proof.
  induction stdin as [|line rest IH]; intros st tr st' tr' H.
  - rewrite console_game_loop_nil in H.
    destruct (Console.scene_text st); discriminate.
  - rewrite console_game_loop_cons in H.
    destruct (Console.scene_text st); try discriminate. simpl.
    destruct (in_list (upper line) ["A"; "B"]) eqn:V.
    + rewrite (console_loop_body_valid _ _ _ _ _ V) in H.
      assert (Q : (upper line =? "QUIT")%string = false).
      { apply in_AB in V. destruct V as [-> | ->]; reflexivity. }
      rewrite Q. unfold console_turn in H.
      destruct (Console.call_gemini_api _ h tr) as [[v|e] tr1]; try discriminate.
      destruct (Console.illustrate fuel v _ h tr1) as [[n|e] tr2]; try discriminate.
      apply IH in H. destruct H as (turns & Hh & Hc). simpl in Hh.
      exists ((upper line, shown h v) :: turns). split.
      * rewrite Hh. unfold append. simpl. now rewrite <- !app_assoc.
      * simpl. now rewrite Hc.
    + assert (HA : upper line <> "A") by (intros E; rewrite E in V; discriminate).
      assert (HB : upper line <> "B") by (intros E; rewrite E in V; discriminate).
      rewrite (console_loop_body_invalid _ _ _ _ _ HA HB) in H.
      destruct (String.eqb (upper line) "QUIT").
      * inversion H; subst. exists []. simpl. now rewrite app_nil_r.
      * now apply IH in H.
Qed.

Lemma console_main_game_loop_history fuel h stdin tr st' tr' :
  Console.main_game_loop fuel stdin h tr = (Ret st', tr') ->
  exists user_idea rest v tr1 turns,
    stdin = user_idea :: rest /\
    Console.call_gemini_api (Console.initial_prompt user_idea) h tr = (Ret v, tr1) /\
    Console.story_history st' = transcript user_idea (shown h v) turns /\
    map fst turns = console_choices rest.
Proof.
  destruct stdin as [|user_idea rest]; simpl; [discriminate|].
  unfold bind.
  destruct (Console.call_gemini_api _ h tr) as [[v|e] tr1] eqn:C; try discriminate.
  rewrite py_str_shown.
  destruct (Console.illustrate fuel v 0 h tr1) as [[n|e] tr2]; try discriminate.
  intros H. apply console_game_loop_history in H.
  destruct H as (turns & Hh & Hc).
  exists user_idea, rest, v, tr1, turns.
  split; [reflexivity|]. split; [exact C|]. split; [|exact Hc].
  rewrite Hh. reflexivity.
Qed.

Lemma push_session_loop_history h inbox :
  forall story_history tr story_history' tr',
    Push.session_loop story_history inbox h tr = (Ret story_history', tr') ->
    exists turns,
      story_history' = (story_history ++ turn_lines turns)%list /\
      map fst turns = push_choices inbox.
Proof.
  induction inbox as [|data rest IH]; intros hist tr hist' tr' H; simpl in H.
  - inversion H; subst. exists []. simpl. now rewrite app_nil_r.
  - unfold bind in H.
    destruct data as [| | | | |members];
      try (rewrite push_loop_body_not_object in H by congruence; discriminate).
    unfold push_choices. simpl. fold (push_choices rest).
    destruct (lookup "choice" members) as [[| | |c| |]|] eqn:E;
      try (rewrite push_loop_body_invalid in H by congruence;
           now apply IH in H).
    destruct (in_list c ["A"; "B"]) eqn:V.
    + rewrite (push_loop_body_valid _ _ _ _ _ E V) in H. unfold push_turn in H.
      destruct (Push.call_gemini_api _ h tr) as [[v|e] tr1]; try discriminate.
      destruct (Push.deliver v h tr1) as [[[]|e] tr2]; try discriminate.
      apply IH in H. destruct H as (turns & Hh & Hc).
      exists ((c, shown h v) :: turns). split.
      * rewrite Hh. unfold append. simpl. now rewrite <- !app_assoc.
      * simpl. now rewrite Hc.
    + assert (HA : c <> "A") by (intros ->; discriminate).
      assert (HB : c <> "B") by (intros ->; discriminate).
      rewrite push_loop_body_invalid in H by congruence.
      now apply IH in H.
Qed.

(** The premise of a session: the idea of the first message, or the
    default. *)
Lemma push_websocket_endpoint_history h members rest tr story_history' tr' :
  Push.websocket_endpoint (JObj members :: rest) h tr = (Ret story_history', tr') ->
  let idea := shown h (match lookup "idea" members with
                       | Some x => x
                       | None => JStr Push.default_idea
                       end) in
  exists v tr1 turns,
    Push.call_gemini_api (Push.initial_prompt idea) h tr = (Ret v, tr1) /\
    story_history' = transcript idea (shown h v) turns /\
    map fst turns = push_choices rest.
Proof.
  simpl. intros H. unfold bind, py_get in H.
  unfold ret in H at 1. rewrite py_str_shown in H.
  unfold Push.call_gemini_api_async in H.
  destruct (Push.call_gemini_api _ h tr) as [[v|e] tr1] eqn:C; try discriminate.
  rewrite py_str_shown in H.
  destruct (Push.deliver v h tr1) as [[[]|e] tr2]; try discriminate.
  apply push_session_loop_history in H. destruct H as (turns & Hh & Hc).
  cbv zeta. exists v, tr1, turns.
  split; [reflexivity|]. split; [|exact Hc].
  rewrite Hh. reflexivity.
Qed.

Lemma transcript_length idea opening turns :
  List.length (transcript idea opening turns) = 2 + 2 * List.length turns.
Proof.
  unfold transcript. simpl. do 2 f_equal.
  induction turns as [|t turns IH]; simpl; [reflexivity|]. rewrite IH. lia.
Qed.

(** ** The first request of a turn *)

Lemma console_turn_posts fuel st choice h tr :
  exists more,
    snd (console_turn fuel st choice h tr)
    = (tr ++ console_turn_request h (Console.story_history st) choice :: more)%list.
Proof.
  unfold console_turn, console_turn_request.
  pose proof (console_call_gemini_api_answers h
                (Console.next_prompt
                   (append (Console.story_history st) ("User chose: " ++ choice))) tr)
    as [E _].
  destruct (Console.call_gemini_api _ h tr) as [[v|e] tr1]; simpl in E; subst tr1;
    try (exists []; reflexivity).
  destruct (grows_console_illustrate fuel v (Console.scene_counter st) h
              (tr ++ [console_turn_request h (Console.story_history st) choice])%list)
    as [more E].
  exists more.
  destruct (Console.illustrate fuel v _ h _) as [[n|e] tr2]; simpl in *;
    subst tr2; now rewrite <- app_assoc.
Qed.

Lemma push_turn_posts story_history choice h tr :
  exists more,
    snd (push_turn story_history choice h tr)
    = (tr ++ push_turn_request h story_history choice :: more)%list.
Proof.
  unfold push_turn, push_turn_request.
  pose proof (push_call_gemini_api_answers h
                (Push.next_prompt (append story_history ("User chose: " ++ choice))) tr)
    as [E _].
  destruct (Push.call_gemini_api _ h tr) as [[v|e] tr1]; simpl in E; subst tr1;
    try (exists []; reflexivity).
  destruct (grows_push_deliver v h
              (tr ++ [push_turn_request h story_history choice])%list)
    as [more E].
  exists more.
  destruct (Push.deliver v h _) as [[[]|e] tr2]; simpl in *;
    subst tr2; now rewrite <- app_assoc.
Qed.

Lemma bind_posts {A B} (m : M A) (k : A -> M B) e h tr :
  snd (m h tr) = (tr ++ [e])%list -> (forall a, grows (k a)) ->
  exists more, snd (bind m k h tr) = (tr ++ e :: more)%list.
Proof.
  intros E Hk. unfold bind.
  destruct (m h tr) as [[a|x] tr1]; simpl in E; subst tr1;
    try (exists []; reflexivity).
  destruct (Hk a h (tr ++ [e])%list) as [more Em].
  exists more. rewrite Em. now rewrite <- app_assoc.
Qed.

Lemma grows_push_loop_body story_history data :
  grows (Push.loop_body story_history data).
Proof. unfold Push.loop_body, Push.call_gemini_api_async. grow. Qed.

#[local] Hint Resolve grows_push_loop_body : grows.

Lemma grows_push_session_loop inbox :
  forall story_history, grows (Push.session_loop story_history inbox).
Proof.
  induction inbox as [|data rest IH]; intros story_history; simpl; grow.
Qed.

Lemma grows_console_loop_body fuel st line :
  grows (Console.loop_body fuel st line).
Proof. unfold Console.loop_body. grow. Qed.

#[local] Hint Resolve grows_push_session_loop grows_console_loop_body : grows.

Lemma grows_print_scene scene_text : grows (Console.print_scene scene_text).
Proof. unfold Console.print_scene. grow. Qed.

#[local] Hint Resolve grows_print_scene : grows.

Lemma grows_console_game_loop fuel stdin :
  forall st, grows (Console.game_loop fuel st stdin).
Proof.
  induction stdin as [|line rest IH]; intros st; simpl; grow.
Qed.

Lemma push_websocket_endpoint_posts members rest h tr :
  exists more,
    snd (Push.websocket_endpoint (JObj members :: rest) h tr)
    = (tr ++ gemini_request h
               (Push.initial_prompt
                  (shown h (match lookup "idea" members with
                            | Some x => x
                            | None => JStr Push.default_idea
                            end)))
             :: more)%list.
Proof.
  simpl. unfold py_get. unfold bind at 1. unfold ret at 1.
  unfold bind at 1. rewrite py_str_shown.
  apply bind_posts.
  - apply push_call_gemini_api_answers.
  - intros v. grow.
Qed.

(** ** Claims on the session loops *)

(** C3.  In both session loops a choice outside {A, B} changes nothing and
    posts nothing.  Console: a line whose upper-case form is neither "A"
    nor "B" leaves the session and the trace exactly as they were, and
    unless it is the quit signal (which is not a choice and ends the loop)
    the loop goes on to await the next line.  Push: a message whose choice
    member is neither the string "A" nor the string "B" leaves the
    transcript and the trace exactly as they were, and the loop goes on to
    await the next message. *)
Theorem invalid_choice_is_ignored :
  (forall fuel st line h tr,
     upper line <> "A" -> upper line <> "B" ->
     Console.loop_body fuel st line h tr
     = (Ret (if (upper line =? "QUIT")%string then Console.Break else Console.Next, st), tr)
     /\
     (upper line <> "QUIT" ->
      forall rest,
        Console.game_loop fuel st (line :: rest) h tr
        = Console.game_loop fuel st rest h tr)) /\
  (forall story_history members h tr,
     lookup "choice" members <> Some (JStr "A") ->
     lookup "choice" members <> Some (JStr "B") ->
     Push.loop_body story_history (JObj members) h tr = (Ret story_history, tr)
     /\
     forall rest,
       Push.session_loop story_history (JObj members :: rest) h tr
       = Push.session_loop story_history rest h tr).
Proof.
  split.
  - intros fuel st line h tr HA HB.
    pose proof (console_loop_body_invalid fuel st line h tr HA HB) as E.
    split; [exact E|].
    intros HQ rest. rewrite console_game_loop_cons, E.
    destruct (String.eqb_spec (upper line) "QUIT"); [contradiction|].
    destruct (Console.scene_text st) eqn:Sc; try reflexivity;
      symmetry; apply console_game_loop_no_text; rewrite Sc; discriminate.
  - intros story_history members h tr HA HB.
    pose proof (push_loop_body_invalid story_history members h tr HA HB) as E.
    split; [exact E|].
    intros rest. simpl. unfold bind. now rewrite E.
Qed.

Lemma invalid_choice_is_ignored_witness :
  let st := {| Console.story_history := ["The user's character is a knight."];
               Console.scene_text := JStr "You stand at a gate.";
               Console.scene_counter := 0 |} in
  Console.loop_body 1 st "c" offline [] = (Ret (Console.Next, st), []) /\
  Push.loop_body ["The user's character is a knight."]
    (JObj [("choice", JStr "C")]) offline []
  = (Ret ["The user's character is a knight."], []).
Proof.
  intros st. split.
  - apply (proj1 invalid_choice_is_ignored 1 st "c" offline []); discriminate.
  - apply (proj2 invalid_choice_is_ignored
             ["The user's character is a knight."]
             [("choice", JStr "C")] offline []); discriminate.
Defined.

(** C10.  The console loop compares the upper-case form of the line: "a"
    and "b" are taken as the choices A and B (a turn starts: the request
    posted carries the transcript with the line "User chose: A" or "User
    chose: B"), and "quit" in any letter case ends the pass with a break,
    so that the loop that has shown its scene and reads such a line ends
    there, with the session as it was.  (The scene is shown before the
    line is read: a scene that is no text cannot be shown, and the loop
    ends in AttributeError without reading.)  The push loop compares the
    choice as sent: only the strings "A" and "B" start a turn, and every
    other string, "a" and "b" included, is ignored without an answer. *)
Theorem choice_matching_by_variant :
  (forall fuel st line h tr,
     In line ["a"; "b"; "A"; "B"] ->
     In (upper line) ["A"; "B"] /\
     exists more,
       snd (Console.loop_body fuel st line h tr)
       = (tr ++ console_turn_request h (Console.story_history st) (upper line)
             :: more)%list) /\
  (forall fuel st line rest h tr,
     In line quit_spellings ->
     Console.loop_body fuel st line h tr = (Ret (Console.Break, st), tr) /\
     Console.game_loop fuel st (line :: rest) h tr
     = (match Console.scene_text st with
        | JStr _ => Ret st
        | _ => Raise AttributeError
        end, tr)) /\
  (forall story_history members c h tr,
     lookup "choice" members = Some (JStr c) ->
     (c = "A" \/ c = "B" ->
      exists more,
        snd (Push.loop_body story_history (JObj members) h tr)
        = (tr ++ push_turn_request h story_history c :: more)%list) /\
     (c <> "A" -> c <> "B" ->
      Push.loop_body story_history (JObj members) h tr = (Ret story_history, tr))) /\
  (forall story_history c h tr,
     In c ["a"; "b"] ->
     Push.loop_body story_history (JObj [("choice", JStr c)]) h tr
     = (Ret story_history, tr)).
Proof.
  split; [|split; [|split]].
  - intros fuel st line h tr Hin.
    assert (V : in_list (upper line) ["A"; "B"] = true).
    { simpl in Hin. destruct Hin as [<-|[<-|[<-|[<-|[]]]]]; reflexivity. }
    split.
    + apply in_AB in V. destruct V as [-> | ->]; simpl; auto.
    + rewrite (console_loop_body_valid _ _ _ _ _ V). apply console_turn_posts.
  - intros fuel st line rest h tr Hin.
    assert (Q : upper line = "QUIT").
    { unfold quit_spellings in Hin. simpl in Hin.
      repeat (destruct Hin as [<-|Hin]; [reflexivity|]). destruct Hin. }
    assert (E : Console.loop_body fuel st line h tr = (Ret (Console.Break, st), tr)).
    { unfold Console.loop_body. now rewrite Q. }
    split; [exact E|]. rewrite console_game_loop_cons, E.
    now destruct (Console.scene_text st).
  - intros story_history members c h tr E. split.
    + intros Hc.
      rewrite (push_loop_body_valid _ _ _ _ _ E (proj2 (in_AB c) Hc)).
      apply push_turn_posts.
    + intros HA HB. apply push_loop_body_invalid; rewrite E; congruence.
  - intros story_history c h tr Hin.
    apply push_loop_body_invalid; simpl;
      destruct Hin as [<-|[<-|[]]]; discriminate.
Qed.

Lemma choice_matching_by_variant_witness :
  Console.game_loop 0
    {| Console.story_history := ["The user's character is a knight."];
       Console.scene_text := JStr "You stand at a gate.";
       Console.scene_counter := 0 |}
    ["QuIt"; "a"] offline []
  = (Ret {| Console.story_history := ["The user's character is a knight."];
            Console.scene_text := JStr "You stand at a gate.";
            Console.scene_counter := 0 |}, []) /\
  Push.loop_body ["The user's character is a knight."]
    (JObj [("choice", JStr "a")]) offline []
  = (Ret ["The user's character is a knight."], []).
Proof.
  split.
  - apply (proj2 (proj1 (proj2 choice_matching_by_variant) 0
                    {| Console.story_history := ["The user's character is a knight."];
                       Console.scene_text := JStr "You stand at a gate.";
                       Console.scene_counter := 0 |}
                    "QuIt" ["a"] offline []
                    ltac:(unfold quit_spellings; simpl; tauto))).
  - apply (proj2 (proj2 (proj2 choice_matching_by_variant))
             ["The user's character is a knight."] "a" offline []).
    simpl. tauto.
Defined.

(** The upper case of the dotless i is I, so that a line typed with it is
    a quit signal too. *)
Example dotless_i_quits :
  upper (utf8 [113; 117; 196; 177; 116]) = "QUIT".
Proof. reflexivity. Qed.

(** A scene that is no text ends the loop before a line is read. *)
Example scene_that_is_no_text_ends_the_loop :
  Console.game_loop 0
    {| Console.story_history := ["The user's character is a knight."];
       Console.scene_text := JNum 5;
       Console.scene_counter := 0 |}
    ["quit"] offline []
  = (Raise AttributeError, []).
Proof. reflexivity. Qed.

(** C2, as amended.  The transcript is append-only and keeps its order, and
    in both variants a session that has taken N valid choices holds
    2 + 2N lines: the premise, the opening scene, then for each turn the
    choice line followed by the scene line, in the order the choices were
    made.  The push variant stores the premise as the first line of its
    transcript as the console variant does. *)
Theorem transcript_has_two_lines_per_turn :
  (forall fuel stdin h tr st' tr',
     Console.main_game_loop fuel stdin h tr = (Ret st', tr') ->
     exists user_idea rest opening turns,
       stdin = user_idea :: rest /\
       Console.story_history st' = transcript user_idea opening turns /\
       map fst turns = console_choices rest /\
       List.length (Console.story_history st')
       = 2 + 2 * List.length (console_choices rest)) /\
  (forall members rest h tr story_history' tr',
     Push.websocket_endpoint (JObj members :: rest) h tr = (Ret story_history', tr') ->
     exists idea opening turns,
       story_history' = transcript idea opening turns /\
       map fst turns = push_choices rest /\
       List.length story_history' = 2 + 2 * List.length (push_choices rest)) /\
  (forall fuel st stdin h tr st' tr',
     Console.game_loop fuel st stdin h tr = (Ret st', tr') ->
     exists more,
       Console.story_history st' = (Console.story_history st ++ more)%list) /\
  (forall story_history inbox h tr story_history' tr',
     Push.session_loop story_history inbox h tr = (Ret story_history', tr') ->
     exists more, story_history' = (story_history ++ more)%list).
Proof.
  split; [|split; [|split]].
  - intros fuel stdin h tr st' tr' H.
    apply console_main_game_loop_history in H.
    destruct H as (user_idea & rest & v & tr1 & turns & -> & _ & Hh & Hc).
    exists user_idea, rest, (shown h v), turns. repeat split; auto.
    now rewrite Hh, transcript_length, <- Hc, length_map.
  - intros members rest h tr hist tr' H.
    apply push_websocket_endpoint_history in H.
    destruct H as (v & tr1 & turns & _ & Hh & Hc).
    eexists _, (shown h v), turns. repeat split; eauto.
    now rewrite Hh, transcript_length, <- Hc, length_map.
  - intros fuel st stdin h tr st' tr' H.
    apply console_game_loop_history in H. destruct H as (turns & Hh & _).
    now exists (turn_lines turns).
  - intros hist inbox h tr hist' tr' H.
    apply push_session_loop_history in H. destruct H as (turns & Hh & _).
    now exists (turn_lines turns).
Qed.

Lemma transcript_has_two_lines_per_turn_witness :
  (exists user_idea rest opening turns,
     ["a knight in a haunted forest"; "x"; "a"; "quit"] = user_idea :: rest /\
     ["The user's character is a knight in a haunted forest.";
      "AI Scene: You stand at a gate. A) Enter B) Leave";
      "User chose: A";
      "AI Scene: The gate creaks open. A) Go on B) Wait"]
     = transcript user_idea opening turns /\
     map fst turns = console_choices rest /\
     4 = 2 + 2 * List.length (console_choices rest)) /\
  (exists idea opening turns,
     ["The user's character is a knight in a haunted forest.";
      "AI Scene: You stand at a gate. A) Enter B) Leave";
      "User chose: B";
      "AI Scene: The gate creaks open. A) Go on B) Wait"]
     = transcript idea opening turns /\
     map fst turns
     = push_choices [JObj [("choice", JStr "b")]; JObj [("choice", JStr "B")]] /\
     4 = 2 + 2 * List.length
                   (push_choices [JObj [("choice", JStr "b")];
                                  JObj [("choice", JStr "B")]])).
Proof.
  split.
  - apply (proj1 transcript_has_two_lines_per_turn 0
             ["a knight in a haunted forest"; "x"; "a"; "quit"] storyteller []
             {| Console.story_history :=
                  ["The user's character is a knight in a haunted forest.";
                   "AI Scene: You stand at a gate. A) Enter B) Leave";
                   "User chose: A";
                   "AI Scene: The gate creaks open. A) Go on B) Wait"];
                Console.scene_text := JStr "The gate creaks open. A) Go on B) Wait";
                Console.scene_counter := 0 |}
             (snd (Console.main_game_loop 0
                     ["a knight in a haunted forest"; "x"; "a"; "quit"]
                     storyteller []))).
    vm_compute. reflexivity.
  - apply (proj1 (proj2 transcript_has_two_lines_per_turn)
             [("idea", JStr "a knight in a haunted forest")]
             [JObj [("choice", JStr "b")]; JObj [("choice", JStr "B")]]
             storyteller []
             ["The user's character is a knight in a haunted forest.";
              "AI Scene: You stand at a gate. A) Enter B) Leave";
              "User chose: B";
              "AI Scene: The gate creaks open. A) Go on B) Wait"]
             (snd (Push.websocket_endpoint
                     [JObj [("idea", JStr "a knight in a haunted forest")];
                      JObj [("choice", JStr "b")]; JObj [("choice", JStr "B")]]
                     storyteller []))).
    vm_compute. reflexivity.
Defined.

(** C2 as stated fails: after one valid turn the console transcript holds
    four lines, not 1 + 2 * 1, and the push transcript of the same session
    holds four lines too, the first of them the premise. *)
Lemma transcript_length_counterexample :
  (exists st,
     fst (Console.main_game_loop 0 ["a knight in a haunted forest"; "a"; "quit"]
            storyteller []) = Ret st /\
     List.length (Console.story_history st) = 4 /\
     List.length (Console.story_history st) <> 1 + 2 * 1) /\
  fst (Push.websocket_endpoint
         [JObj [("idea", JStr "a knight in a haunted forest")];
          JObj [("choice", JStr "A")]] storyteller [])
  = Ret ["The user's character is a knight in a haunted forest.";
         "AI Scene: You stand at a gate. A) Enter B) Leave";
         "User chose: A";
         "AI Scene: The gate creaks open. A) Go on B) Wait"].
Proof.
  split.
  - eexists. split; [vm_compute; reflexivity|]. split; [reflexivity|discriminate].
  - vm_compute. reflexivity.
Qed.

(** C9.  In the push variant a session-start message without an "idea"
    member starts the session on the premise "a brave adventurer in a
    mysterious land": the session runs exactly as if that idea had been
    sent, its first request carries the opening prompt for that premise,
    no further message is awaited first, and the transcript opens with the
    premise line of that idea. *)
Theorem missing_idea_uses_default (members : list (string * json))
    (rest : list json) (h : Host) (tr : list event) :
  lookup "idea" members = None ->
  Push.websocket_endpoint (JObj members :: rest) h tr
  = Push.websocket_endpoint
      (JObj [("idea", JStr "a brave adventurer in a mysterious land")] :: rest) h tr
  /\
  (exists more,
     snd (Push.websocket_endpoint (JObj members :: rest) h tr)
     = (tr ++ gemini_request h
                (Push.initial_prompt "a brave adventurer in a mysterious land")
              :: more)%list) /\
  (forall story_history' tr',
     Push.websocket_endpoint (JObj members :: rest) h tr = (Ret story_history', tr') ->
     exists opening turns,
       story_history'
       = transcript "a brave adventurer in a mysterious land" opening turns).
Proof.
  intros E. split; [|split].
  - simpl. unfold py_get, bind. now rewrite E.
  - pose proof (push_websocket_endpoint_posts members rest h tr) as P.
    now rewrite E in P.
  - intros hist tr' H. apply push_websocket_endpoint_history in H.
    rewrite E in H. destruct H as (v & tr1 & turns & _ & Hh & _).
    now exists (shown h v), turns.
Qed.

Lemma missing_idea_uses_default_witness :
  Push.websocket_endpoint [JObj [("name", JStr "Ada")]] storyteller []
  = Push.websocket_endpoint
      [JObj [("idea", JStr "a brave adventurer in a mysterious land")]] storyteller []
  /\
  (exists more,
     snd (Push.websocket_endpoint [JObj [("name", JStr "Ada")]] storyteller [])
     = ([] ++ gemini_request storyteller
                (Push.initial_prompt "a brave adventurer in a mysterious land")
              :: more)%list) /\
  (forall story_history' tr',
     Push.websocket_endpoint [JObj [("name", JStr "Ada")]] storyteller []
     = (Ret story_history', tr') ->
     exists opening turns,
       story_history'
       = transcript "a brave adventurer in a mysterious land" opening turns).
Proof.
  apply (missing_idea_uses_default [("name", JStr "Ada")] [] storyteller []).
  reflexivity.
Defined.

(** ** A scene is recorded whatever it says *)

Lemma console_pass_appends fuel st line h tr flow st' tr' :
  in_list (upper line) ["A"; "B"] = true ->
  Console.loop_body fuel st line h tr = (Ret (flow, st'), tr') ->
  exists v tr1,
    fst (Console.call_gemini_api
           (Console.next_prompt
              (append (Console.story_history st) ("User chose: " ++ upper line)))
           h tr) = Ret v /\
    tr1 = (tr ++ [console_turn_request h (Console.story_history st) (upper line)])%list /\
    Console.story_history st'
    = (Console.story_history st ++ turn_lines [(upper line, shown h v)])%list.
Proof.
  intros V H. rewrite (console_loop_body_valid _ _ _ _ _ V) in H.
  unfold console_turn in H.
  destruct (Console.call_gemini_api _ h tr) as [[v|e] tr1]; try discriminate.
  destruct (Console.illustrate fuel v _ h tr1) as [[n|e] tr2]; try discriminate.
  inversion H; subst. exists v. eexists. split; [reflexivity|]. split; [reflexivity|].
  unfold append. simpl. now rewrite <- app_assoc.
Qed.

Lemma push_pass_appends story_history members c h tr story_history' tr' :
  lookup "choice" members = Some (JStr c) ->
  in_list c ["A"; "B"] = true ->
  Push.loop_body story_history (JObj members) h tr = (Ret story_history', tr') ->
  exists v tr1,
    fst (Push.call_gemini_api
           (Push.next_prompt (append story_history ("User chose: " ++ c))) h tr)
    = Ret v /\
    tr1 = (tr ++ [push_turn_request h story_history c])%list /\
    story_history' = (story_history ++ turn_lines [(c, shown h v)])%list.
Proof.
  intros E V H. rewrite (push_loop_body_valid _ _ _ _ _ E V) in H.
  unfold push_turn in H.
  destruct (Push.call_gemini_api _ h tr) as [[v|e] tr1]; try discriminate.
  destruct (Push.deliver v h tr1) as [[[]|e] tr2]; try discriminate.
  inversion H; subst. exists v. eexists. split; [reflexivity|]. split; [reflexivity|].
  unfold append. simpl. now rewrite <- app_assoc.
Qed.

(** *** When no service can be reached *)

Lemma console_call_unreachable h prompt tr :
  unreachable h ->
  Console.call_gemini_api prompt h tr
  = (Ret (JStr "Error: Could not connect to the AI."),
     (tr ++ [gemini_request h prompt])%list).
Proof.
  intros U. destruct (console_call_gemini_api_answers h prompt tr) as [E1 E2].
  unfold answers in E2. rewrite U in E2. simpl in E2.
  destruct (Console.call_gemini_api prompt h tr) as [o tr1]. simpl in *.
  now subst.
Qed.

Lemma push_call_unreachable h prompt tr :
  unreachable h ->
  Push.call_gemini_api prompt h tr
  = (Ret (JStr "Error: The AI storyteller is currently unavailable."),
     (tr ++ [gemini_request h prompt])%list).
Proof.
  intros U. destruct (push_call_gemini_api_answers h prompt tr) as [E1 E2].
  unfold answers in E2. rewrite U in E2. simpl in E2.
  destruct (Push.call_gemini_api prompt h tr) as [o tr1]. simpl in *.
  now subst.
Qed.

Lemma console_image_unreachable fuel visual_prompt h tr :
  unreachable h ->
  exists tr',
    Console.generate_image_with_stable_diffusion fuel visual_prompt h tr
    = (Ret None, tr').
Proof.
  intros U. destruct fuel; simpl; run;
    (destruct (String.eqb (HUGGINGFACE_API_KEY h) ""); [now eexists|]);
    rewrite U; now eexists.
Qed.

Lemma push_image_unreachable visual_prompt h tr :
  unreachable h ->
  exists tr',
    Push.generate_image_with_stable_diffusion visual_prompt h tr = (Ret None, tr').
Proof.
  intros U. unfold Push.generate_image_with_stable_diffusion. run.
  (destruct (String.eqb (HUGGINGFACE_API_KEY h) ""); [now eexists|]).
  rewrite U. now eexists.
Qed.

Lemma console_illustrate_unreachable fuel v n h tr :
  unreachable h ->
  exists tr', Console.illustrate fuel v n h tr = (Ret n, tr').
Proof.
  intros U. unfold Console.illustrate, Console.generate_visual_prompt.
  unfold bind. rewrite py_str_shown, (console_call_unreachable _ _ _ U).
  unfold clean_value, ret at 1.
  destruct (console_image_unreachable fuel
              (clean "Error: Could not connect to the AI.") h
              (tr ++ [gemini_request h (Console.visual_prompt_request (shown h v))])%list U)
    as [tr' E].
  rewrite E. now eexists.
Qed.

Lemma push_deliver_unreachable v h tr :
  unreachable h ->
  exists tr', Push.deliver v h tr = (Ret tt, tr').
Proof.
  intros U. unfold Push.deliver, Push.generate_visual_prompt_async,
    Push.call_gemini_api_async, Push.generate_image_async.
  unfold bind, emit. rewrite py_str_shown, (push_call_unreachable _ _ _ U).
  unfold clean_value, ret at 1.
  destruct (push_image_unreachable
              (clean "Error: The AI storyteller is currently unavailable.") h
              ((tr ++ [Send (JObj [("type", JStr "story"); ("text", v)])]) ++
               [gemini_request h (Push.visual_prompt_request (shown h v))])%list U)
    as [tr' E].
  rewrite E. now eexists.
Qed.



(** ** The illustration client on a failed request *)

Lemma key_present h : HUGGINGFACE_API_KEY h <> "" ->
  (HUGGINGFACE_API_KEY h =? "")%string = false.
Proof. intros H. now apply String.eqb_neq. Qed.

Lemma truncate_bounds (T : Q) :
  (0 <= T)%Q ->
  (0 <= truncate T)%Z /\
  (inject_Z (truncate T) <= T)%Q /\ (T < inject_Z (truncate T + 1))%Q.
Proof.
  intros H.
  assert (E : truncate T = Qfloor T).
  { destruct T as [n d]. unfold truncate, Qfloor. simpl.
    apply Z.quot_div_nonneg; [|reflexivity].
    unfold Qle in H. simpl in H. lia. }
  rewrite E. split; [|split].
  - change 0%Z with (Qfloor 0). now apply Qfloor_resp_le.
  - apply Qfloor_le.
  - apply Qlt_floor.
Qed.

Lemma console_generate_image_unfold fuel visual_prompt :
  Console.generate_image_with_stable_diffusion fuel visual_prompt
  = console_attempt
            match fuel with
      | O => raise RecursionError
      | S fuel' => Console.generate_image_with_stable_diffusion fuel' visual_prompt
      end
      visual_prompt.
Proof. destruct fuel; reflexivity. Qed.

Lemma console_image_retry fuel visual_prompt h tr r members T :
  HUGGINGFACE_API_KEY h <> "" ->
  reply h (tr ++ [image_request h visual_prompt])%list = PostRaises (Some r) ->
  Response_bool r = true ->
  json_body r = Some (JObj members) ->
  lookup "error" members <> None ->
    lookup "estimated_time" members = Some (JNum T) ->
  (0 <= truncate T)%Z ->
  (truncate T <= max_sleep h)%Z ->
  Console.generate_image_with_stable_diffusion (S fuel) visual_prompt h tr
  = swallowed
      (Console.generate_image_with_stable_diffusion fuel visual_prompt h
         ((tr ++ [image_request h visual_prompt]) ++ [Sleep (truncate T)])%list).
Proof.
  intros K R B J E1 E2 P Pmax.
  rewrite console_generate_image_unfold. unfold console_attempt.
  unfold image_request in *.
  unfold bind at 1. unfold ask. rewrite (key_present _ K).
  unfold try_RequestException, bind at 1, requests_post. rewrite R. rewrite B.
  unfold bind at 1, try_except, bind at 1, Response_json. rewrite J.
  unfold ret at 1, bind at 1.
  unfold Console.loading_wait, py_in, bind at 1, ret at 1.
  destruct (lookup "error" members) as [x|] eqn:L1; [|congruence].
  unfold bind at 1, ret at 1. rewrite E2.
  unfold bind at 1, getitem. rewrite E2. unfold ret at 1.
  unfold bind at 1, py_int, ret at 1, ret at 1.
    unfold bind at 1, time_sleep, bind at 1, ask.
  replace (truncate T <? 0)%Z with false by (symmetry; apply Z.ltb_ge; exact P).
  replace (max_sleep h <? truncate T)%Z with false
    by (symmetry; apply Z.ltb_ge; exact Pmax).
  unfold emit, bind at 1, swallowed.
  destruct (Console.generate_image_with_stable_diffusion fuel visual_prompt h _)
    as [[[image|]|e] tr2]; reflexivity.
Qed.

Lemma loading_wait_pure error_data h tr :
  snd (Console.loading_wait error_data h tr) = tr.
Proof.
  unfold Console.loading_wait, py_in, getitem, py_int, bind, ret, raise, ask.
  destruct error_data; simpl; try reflexivity;
    repeat (match goal with
            | |- context [match lookup ?k ?m with _ => _ end] =>
                destruct (lookup k m); simpl
            | |- context [if ?b then _ else _] => destruct b; simpl
            | |- context [match ?x with _ => _ end] => is_var x; destruct x; simpl
            | |- context [match int_of_text ?h ?s with _ => _ end] =>
                                destruct (int_of_text h s); simpl
            end); reflexivity.
Qed.

Lemma console_image_failure fuel visual_prompt h tr e_response :
  HUGGINGFACE_API_KEY h <> "" ->
  let tr' := (tr ++ [image_request h visual_prompt])%list in
  failure (reply h tr') = Some e_response ->
  ~ taken_for_loading h tr' e_response ->
  Console.generate_image_with_stable_diffusion fuel visual_prompt h tr
  = (Ret None, tr').
Proof.
  intros K tr' F N. subst tr'. rewrite console_generate_image_unfold.
  unfold console_attempt, image_request in *.
  unfold bind at 1. unfold ask. rewrite (key_present _ K).
  unfold try_RequestException, bind at 1, requests_post.
  unfold failure in F.
  destruct (reply h _) as [r0|r0].
  - inversion F; subst. destruct e_response as [r|]; [|reflexivity].
    destruct (Response_bool r) eqn:B; [|reflexivity].
    unfold bind at 1, try_except, bind at 1, Response_json.
    destruct (json_body r) as [error_data|] eqn:J; [|reflexivity].
    unfold ret at 1, bind at 1.
    pose proof (loading_wait_pure error_data h
                  (tr ++ [Post STABLE_DIFFUSION_API_URL
                            (image_headers (HUGGINGFACE_API_KEY h))
                            (image_payload visual_prompt)])%list) as P.
    destruct (Console.loading_wait error_data h _) as [[[t|]|x] tr1] eqn:W;
            simpl in P; subst tr1; try reflexivity.
    exfalso. apply N. exists r, error_data, t. unfold image_request.
    rewrite W. auto.
  - unfold bind at 1, raise_for_status.
    destruct (is_error_status r0) eqn:S; [|discriminate].
    inversion F; subst. unfold raise. unfold Response_bool. rewrite S. reflexivity.
Qed.

Lemma push_image_attempt visual_prompt h tr :
  HUGGINGFACE_API_KEY h <> "" ->
  let tr' := (tr ++ [image_request h visual_prompt])%list in
  Push.generate_image_with_stable_diffusion visual_prompt h tr
  = (match reply h tr' with
     | PostRaises _ => Ret None
     | PostReturns r =>
         if is_error_status r then Ret None
                  else match image_body r with
              | Some image =>
                  match png_base64 image with
                  | Some img_str => Ret (Some img_str)
                  | None => Raise OSError
                  end
              | None => Raise UnidentifiedImageError
              end
     end, tr').
Proof.
  intros K tr'. subst tr'.
  unfold Push.generate_image_with_stable_diffusion, image_request. run.
  rewrite (key_present _ K).
  destruct (reply h _) as [r|r]; [reflexivity|].
    destruct (is_error_status r); [reflexivity|].
  destruct (image_body r) as [image|]; [|reflexivity].
  unfold png_encode, ret, raise. simpl. destruct (png_base64 image); reflexivity.
Qed.

Lemma console_image_undecodable fuel visual_prompt h tr r :
  HUGGINGFACE_API_KEY h <> "" ->
  let tr' := (tr ++ [image_request h visual_prompt])%list in
  reply h tr' = PostReturns r -> is_error_status r = false ->
  Console.generate_image_with_stable_diffusion fuel visual_prompt h tr
  = (match image_body r with
     | Some image => Ret (Some image)
     | None => Raise UnidentifiedImageError
     end, tr').
Proof.
  intros K tr' R S. subst tr'. rewrite console_generate_image_unfold.
  unfold console_attempt, image_request in *. run.
  rewrite (key_present _ K), R, S. simpl.
  destruct (image_body r); reflexivity.
Qed.

(** C4, as amended.  Push variant: the illustration client has no retry.
    Whatever failure the request ends in, a loading notice included, it has
    posted exactly one request, has not slept, and returns nothing.
    Console variant: when the handler takes the failure for a loading
    notice with estimated time T >= 0 (the exception carries a response
    that tests true, and its decoded body has the members "error" and
    "estimated_time") and int(T) is a length that [time.sleep] takes, the
    client sleeps int(T) seconds, which is T cut to a whole number (at
    most T, more than T - 1), then calls itself again and returns what
    that call returns, an exception of that call becoming nothing. *)
Theorem loading_notice_handling :
  (forall visual_prompt h tr e_response,
     HUGGINGFACE_API_KEY h <> "" ->
     failure (reply h (tr ++ [image_request h visual_prompt])%list) = Some e_response ->
     Push.generate_image_with_stable_diffusion visual_prompt h tr
     = (Ret None, (tr ++ [image_request h visual_prompt])%list)) /\
  (forall fuel visual_prompt h tr r members T,
     HUGGINGFACE_API_KEY h <> "" ->
     reply h (tr ++ [image_request h visual_prompt])%list = PostRaises (Some r) ->
     Response_bool r = true ->
     json_body r = Some (JObj members) ->
     lookup "error" members <> None ->
          lookup "estimated_time" members = Some (JNum T) ->
     (0 <= T)%Q ->
     (truncate T <= max_sleep h)%Z ->
     Console.generate_image_with_stable_diffusion (S fuel) visual_prompt h tr
     = swallowed
         (Console.generate_image_with_stable_diffusion fuel visual_prompt h
            ((tr ++ [image_request h visual_prompt]) ++ [Sleep (truncate T)])%list)
     /\ (inject_Z (truncate T) <= T)%Q /\ (T < inject_Z (truncate T + 1))%Q).
Proof.
  split.
  - intros visual_prompt h tr e_response K F.
    rewrite (push_image_attempt _ _ _ K). unfold failure in F.
    destruct (reply h _) as [r|r]; [reflexivity|].
    destruct (is_error_status r); [reflexivity|discriminate].
    - intros fuel visual_prompt h tr r members T K R B J E1 E2 P Pmax.
    destruct (truncate_bounds T P) as (P0 & P1 & P2).
    split; [|split; assumption].
    now apply (console_image_retry fuel visual_prompt h tr r members T).
Qed.

Lemma loading_notice_handling_witness :
  Push.generate_image_with_stable_diffusion "a castle" warming_up []
  = (Ret None, ([] ++ [image_request warming_up "a castle"])%list) /\
  (Console.generate_image_with_stable_diffusion 1 "a castle" redirected []
   = swallowed
       (Console.generate_image_with_stable_diffusion 0 "a castle" redirected
          (([] ++ [image_request redirected "a castle"])
           ++ [Sleep (truncate (41 # 2)%Q)])%list)
   /\ (inject_Z (truncate (41 # 2)%Q) <= 41 # 2)%Q
   /\ (41 # 2 < inject_Z (truncate (41 # 2) + 1))%Q).
Proof.
  split.
  - apply (proj1 loading_notice_handling "a castle" warming_up []
             (Some (replied 503 (Some (loading_notice 20))))).
    + discriminate.
    + reflexivity.
  - apply (proj2 loading_notice_handling 0 "a castle" redirected []
             (replied 302 (Some (loading_notice (41 # 2)%Q)))
             [("error", JStr "Model stabilityai/stable-diffusion-xl-base-1.0 is currently loading");
              ("estimated_time", JNum (41 # 2)%Q)]
             (41 # 2)%Q).
    + discriminate.
    + reflexivity.
    + reflexivity.
    + reflexivity.
        + discriminate.
    + reflexivity.
    + discriminate.
    + vm_compute. discriminate.
Defined.

(** C4 as stated fails: told that the model is loading for twenty seconds,
    the push client returns nothing after its one request; it has not
    slept and has not asked again, though the picture was there at the
    second request. *)
Lemma loading_notice_counterexample :
  reply warming_up [image_request warming_up "a castle"] = busy 20 /\
  Push.generate_image_with_stable_diffusion "a castle" warming_up []
  = (Ret None, [image_request warming_up "a castle"]) /\
  sleeps (snd (Push.generate_image_with_stable_diffusion "a castle" warming_up [])) = [] /\
  posts (snd (Push.generate_image_with_stable_diffusion "a castle" warming_up [])) = 1.
Proof. repeat split; reflexivity. Qed.

(** The console client on the same notice: the response of an HTTP error
    tests false, so the handler does not look at its body. *)
Example console_on_http_loading_notice :
  Console.generate_image_with_stable_diffusion 5 "a castle" warming_up []
  = (Ret None, [image_request warming_up "a castle"]).
Proof. reflexivity. Qed.

(** The console client when the handler does take the notice: it sleeps
    twenty seconds on an estimate of twenty and a half, asks again, and
    returns the picture. *)
Example console_sleeps_and_asks_again :
  Console.generate_image_with_stable_diffusion 1 "a castle" redirected []
    = (Ret (Some {| png_base64 := Some "iVBORw0KGgo=" |}),
     [image_request redirected "a castle"; Sleep 20;
      image_request redirected "a castle"]).
Proof. reflexivity. Qed.

(** The console client on an estimate beyond what [time.sleep] takes: the
    OverflowError is caught by the bare [except], and the client returns
    nothing after its one request. *)
Example console_estimate_too_long :
  Console.generate_image_with_stable_diffusion 1 "a castle" overlong []
  = (Ret None, [image_request overlong "a castle"]).
Proof. reflexivity. Qed.

(** C6, as amended.  A request that ends in a RequestException (no
    connection, or an HTTP error status, whatever its body and whether or
    not the body can be parsed) and that the console handler does not take
    for a loading notice makes the illustration client of either variant
    return nothing, after that one request. *)
Theorem request_failure_returns_nothing :
  (forall visual_prompt h tr e_response,
     HUGGINGFACE_API_KEY h <> "" ->
     failure (reply h (tr ++ [image_request h visual_prompt])%list) = Some e_response ->
     Push.generate_image_with_stable_diffusion visual_prompt h tr
     = (Ret None, (tr ++ [image_request h visual_prompt])%list)) /\
  (forall fuel visual_prompt h tr e_response,
     HUGGINGFACE_API_KEY h <> "" ->
     failure (reply h (tr ++ [image_request h visual_prompt])%list) = Some e_response ->
     ~ taken_for_loading h (tr ++ [image_request h visual_prompt])%list e_response ->
     Console.generate_image_with_stable_diffusion fuel visual_prompt h tr
     = (Ret None, (tr ++ [image_request h visual_prompt])%list)).
Proof.
  split.
  - intros visual_prompt h tr e_response K F.
    rewrite (push_image_attempt _ _ _ K). unfold failure in F.
    destruct (reply h _) as [r|r]; [reflexivity|].
    destruct (is_error_status r); [reflexivity|discriminate].
  - intros fuel visual_prompt h tr e_response K F N.
    now apply (console_image_failure fuel visual_prompt h tr e_response).
Qed.

Lemma request_failure_returns_nothing_witness :
  Push.generate_image_with_stable_diffusion "a castle" offline []
  = (Ret None, ([] ++ [image_request offline "a castle"])%list) /\
  Console.generate_image_with_stable_diffusion 3 "a castle" broken []
  = (Ret None, ([] ++ [image_request broken "a castle"])%list).
Proof.
  split.
  - apply (proj1 request_failure_returns_nothing "a castle" offline [] None).
    + discriminate.
    + reflexivity.
  - apply (proj2 request_failure_returns_nothing 3 "a castle" broken []
             (Some (replied 500 None))).
    + discriminate.
    + reflexivity.
    + intros (r & error_data & wait_time & E & B & _).
      inversion E; subst. discriminate B.
Defined.

(** C6 as stated fails: on a reply with status 200 whose body is no image,
    an image-generation failure that is no loading notice, both clients
    let the error of [Image.open] out instead of returning nothing. *)
Lemma unreadable_image_counterexample :
  fst (Console.generate_image_with_stable_diffusion 3 "a castle" garbled [])
    = Raise UnidentifiedImageError /\
  fst (Push.generate_image_with_stable_diffusion "a castle" garbled [])
    = Raise UnidentifiedImageError.
Proof. split; reflexivity. Qed.

(** * Further properties of the two programs *)

(** ** One attempt of the console illustration client *)

Lemma console_attempt_cases again visual_prompt h tr :
  HUGGINGFACE_API_KEY h <> "" ->
  console_attempt again visual_prompt h tr
  = console_attempt_result again h (tr ++ [image_request h visual_prompt])%list.
Proof.
  intros K. unfold console_attempt, console_attempt_result, image_request.
  unfold bind at 1. unfold ask. rewrite (key_present _ K).
  unfold try_RequestException, bind at 1, requests_post.
  destruct (reply h _) as [[r|]|r0]; try reflexivity.
  - destruct (Response_bool r) eqn:B; [|reflexivity].
    unfold bind at 1, try_except, bind at 1, Response_json.
    destruct (json_body r) as [error_data|] eqn:J; [|reflexivity].
    unfold ret at 1, bind at 1.
    pose proof (loading_wait_pure error_data h
                  (tr ++ [Post STABLE_DIFFUSION_API_URL
                            (image_headers (HUGGINGFACE_API_KEY h))
                            (image_payload visual_prompt)])%list) as P.
    destruct (Console.loading_wait error_data h _) as [[[t|]|x] tr1] eqn:W;
            simpl in P; subst tr1; simpl; try reflexivity.
    unfold bind at 1, time_sleep, bind at 1, ask.
        destruct (t <? 0)%Z; [reflexivity|].
    destruct (max_sleep h <? t)%Z; [reflexivity|].
    unfold emit, bind at 1, swallowed.
    destruct (again h _) as [[[image|]|e] tr2]; reflexivity.
  - unfold bind at 1, raise_for_status.
    destruct (is_error_status r0) eqn:S.
    + unfold raise. unfold Response_bool. rewrite S. reflexivity.
    + unfold ret at 1, bind at 1, Image_open.
      destruct (image_body r0); reflexivity.
Qed.

Lemma console_generate_image_cases fuel visual_prompt h tr :
  HUGGINGFACE_API_KEY h <> "" ->
  Console.generate_image_with_stable_diffusion fuel visual_prompt h tr
  = console_attempt_result
            match fuel with
      | O => raise RecursionError
      | S fuel' => Console.generate_image_with_stable_diffusion fuel' visual_prompt
      end
      h (tr ++ [image_request h visual_prompt])%list.
Proof.
  intros K. rewrite console_generate_image_unfold.
  now apply console_attempt_cases.
Qed.

Lemma console_generate_image_no_key fuel visual_prompt h tr :
  HUGGINGFACE_API_KEY h = "" ->
  Console.generate_image_with_stable_diffusion fuel visual_prompt h tr = (Ret None, tr).
Proof.
  intros K. rewrite console_generate_image_unfold.
  unfold console_attempt, bind, ask. now rewrite K.
Qed.

Lemma push_generate_image_no_key visual_prompt h tr :
  HUGGINGFACE_API_KEY h = "" ->
  Push.generate_image_with_stable_diffusion visual_prompt h tr = (Ret None, tr).
Proof.
  intros K. unfold Push.generate_image_with_stable_diffusion, bind, ask.
  now rewrite K.
Qed.

Lemma key_cases h : HUGGINGFACE_API_KEY h = "" \/ HUGGINGFACE_API_KEY h <> "".
Proof.
  destruct (String.eqb_spec (HUGGINGFACE_API_KEY h) ""); [now left|now right].
Qed.

Lemma swallowed_ret {A} (r : outcome (option A) * list event) a :
  fst (swallowed r) = Ret (Some a) -> fst r = Ret (Some a) /\ snd (swallowed r) = snd r.
Proof.
  destruct r as [[[x|]|e] tr]; simpl; intros H; try discriminate; auto.
Qed.

Lemma swallowed_snd {A} (r : outcome (option A) * list event) :
  snd (swallowed r) = snd r.
Proof. now destruct r as [[x|e] tr]. Qed.

Lemma swallowed_never_raises {A} (r : outcome (option A) * list event) e :
  fst (swallowed r) <> Raise e.
Proof. destruct r as [[x|e'] tr]; simpl; discriminate. Qed.

(** X1. When the image service answers at all, the console client asks
    once.  Whatever the status and the body of the reply, a loading notice
    with HTTP 503 included, the client has posted one request and has not
    slept when it returns, and on an HTTP error status it returns nothing:
    the sleep and the second request are out of reach of every reply that
    [raise_for_status] turns into an exception. *)
Theorem console_asks_once_when_answered (fuel : nat) (visual_prompt : string)
    (h : Host) (tr : list event) (r : Response) :
  HUGGINGFACE_API_KEY h <> "" ->
  reply h (tr ++ [image_request h visual_prompt])%list = PostReturns r ->
  snd (Console.generate_image_with_stable_diffusion fuel visual_prompt h tr)
  = (tr ++ [image_request h visual_prompt])%list /\
  (is_error_status r = true ->
   fst (Console.generate_image_with_stable_diffusion fuel visual_prompt h tr)
   = Ret None) /\
  (is_error_status r = false ->
   fst (Console.generate_image_with_stable_diffusion fuel visual_prompt h tr)
   = match image_body r with
     | Some image => Ret (Some image)
     | None => Raise UnidentifiedImageError
     end).
Proof.
  intros K R. rewrite (console_generate_image_cases _ _ _ _ K).
  unfold console_attempt_result. rewrite R.
  destruct (is_error_status r); simpl; repeat split; try reflexivity;
    intros; discriminate.
Qed.

Lemma console_asks_once_when_answered_witness :
  snd (Console.generate_image_with_stable_diffusion 7 "a castle" warming_up [])
  = ([] ++ [image_request warming_up "a castle"])%list /\
  (is_error_status (replied 503 (Some (loading_notice 20))) = true ->
   fst (Console.generate_image_with_stable_diffusion 7 "a castle" warming_up [])
   = Ret None) /\
  (is_error_status (replied 503 (Some (loading_notice 20))) = false ->
   fst (Console.generate_image_with_stable_diffusion 7 "a castle" warming_up [])
   = match image_body (replied 503 (Some (loading_notice 20))) with
     | Some image => Ret (Some image)
     | None => Raise UnidentifiedImageError
     end).
Proof.
  apply (console_asks_once_when_answered 7 "a castle" warming_up []
           (replied 503 (Some (loading_notice 20)))).
  - discriminate.
  - reflexivity.
Defined.

(** X2.  The exceptions that leave an illustration client.  If the console
    client ends in an exception, the exception is the one of [Image.open],
    raised on the reply to the first and only request: a reply with a
    success status whose body is no image.  Nothing that happens after a
    sleep in the console client comes out as an exception.  If the push
    client ends in an exception, the reply to its one request had a
    success status, and the exception is the one of [Image.open] on a body
    that is no image, or the OSError of [image.save] on a picture that
    cannot be written as PNG. *)
Theorem illustration_client_exception (fuel : nat) (visual_prompt : string)
    (h : Host) (tr : list event) (e : exn) :
  (fst (Console.generate_image_with_stable_diffusion fuel visual_prompt h tr) = Raise e ->
   e = UnidentifiedImageError /\
   exists r,
     reply h (tr ++ [image_request h visual_prompt])%list = PostReturns r /\
     is_error_status r = false /\ image_body r = None) /\
  (fst (Push.generate_image_with_stable_diffusion visual_prompt h tr) = Raise e ->
   exists r,
     reply h (tr ++ [image_request h visual_prompt])%list = PostReturns r /\
     is_error_status r = false /\
     (e = UnidentifiedImageError /\ image_body r = None \/
      e = OSError /\
      exists image, image_body r = Some image /\ png_base64 image = None)).
Proof.
  destruct (key_cases h) as [K|K].
  { rewrite (console_generate_image_no_key _ _ _ _ K),
            (push_generate_image_no_key _ _ _ K).
    simpl. split; discriminate. }
  rewrite (console_generate_image_cases _ _ _ _ K), (push_image_attempt _ _ _ K).
  unfold console_attempt_result. simpl.
  destruct (reply h _) as [[r|]|r].
  - split; [|discriminate]. intros H. exfalso.
    destruct (Response_bool r); [|discriminate].
    destruct (json_body r) as [d|]; [|discriminate].
    destruct (fst (Console.loading_wait d h _)) as [[t|]|x]; try discriminate.
    destruct (t <? 0)%Z; [discriminate|].
    destruct (max_sleep h <? t)%Z; [discriminate|].
    now apply swallowed_never_raises in H.
  - split; discriminate.
  - destruct (is_error_status r) eqn:S; [split; discriminate|].
    destruct (image_body r) as [img|] eqn:I.
    + split; [discriminate|].
      destruct (png_base64 img) eqn:P; [discriminate|].
      intros [= <-]. exists r. split; [reflexivity|]. split; [exact S|].
      right. split; [reflexivity|]. now exists img.
    + simpl. split; intros [= <-].
      * split; [reflexivity|]. now exists r.
      * exists r. split; [reflexivity|]. split; [exact S|]. now left.
Qed.

Lemma illustration_client_exception_witness :
  (UnidentifiedImageError = UnidentifiedImageError /\
   exists r,
     reply garbled ([] ++ [image_request garbled "a castle"])%list = PostReturns r /\
     is_error_status r = false /\ image_body r = None) /\
  exists r,
    reply unwritable ([] ++ [image_request unwritable "a castle"])%list
    = PostReturns r /\
    is_error_status r = false /\
    (OSError = UnidentifiedImageError /\ image_body r = None \/
     OSError = OSError /\
     exists image, image_body r = Some image /\ png_base64 image = None).
Proof.
  split.
  - apply (proj1 (illustration_client_exception 2 "a castle" garbled []
                    UnidentifiedImageError)).
    reflexivity.
  - apply (proj2 (illustration_client_exception 2 "a castle" unwritable []
                    OSError)).
    reflexivity.
Defined.

(** X3. An image the console client returns is the one the service sent
    last.  If the client returns an image, the last event of the trace is
    its request, the reply to that request had a success status, and the
    image is the decoded body of that reply, however many times the client
    slept and asked before. *)
Theorem returned_image_is_last_reply (fuel : nat) (visual_prompt : string)
    (h : Host) :
  forall (tr : list event) (image : Image),
    fst (Console.generate_image_with_stable_diffusion fuel visual_prompt h tr)
    = Ret (Some image) ->
    exists before r,
      snd (Console.generate_image_with_stable_diffusion fuel visual_prompt h tr)
      = (before ++ [image_request h visual_prompt])%list /\
      reply h (before ++ [image_request h visual_prompt])%list = PostReturns r /\
      is_error_status r = false /\ image_body r = Some image.
Proof.
  destruct (key_cases h) as [K|K].
  { intros tr image. rewrite (console_generate_image_no_key _ _ _ _ K).
    discriminate. }
  induction fuel as [|fuel IH]; intros tr image;
    rewrite (console_generate_image_cases _ _ _ _ K);
    unfold console_attempt_result;
    (destruct (reply h _) as [[r|]|r] eqn:R;
     [ | discriminate
       | destruct (is_error_status r) eqn:S; [discriminate|];
         destruct (image_body r) as [img|] eqn:I; [|discriminate];
         simpl; intros H; inversion H; subst;
         exists tr, r; now rewrite R ]);
    (destruct (Response_bool r); [|discriminate]);
    (destruct (json_body r) as [d|]; [|discriminate]);
    (destruct (fst (Console.loading_wait d h _)) as [[t|]|x]; try discriminate);
        (destruct (t <? 0)%Z; [discriminate|]);
    (destruct (max_sleep h <? t)%Z; [discriminate|]);
    intros H; apply swallowed_ret in H; destruct H as [H E]; rewrite E.
  - discriminate.
  - now apply IH.
Qed.

Lemma returned_image_is_last_reply_witness :
  exists before r,
    snd (Console.generate_image_with_stable_diffusion 1 "a castle" redirected [])
    = (before ++ [image_request redirected "a castle"])%list /\
    reply redirected (before ++ [image_request redirected "a castle"])%list
    = PostReturns r /\
    is_error_status r = false /\
        image_body r = Some {| png_base64 := Some "iVBORw0KGgo=" |}.
Proof.
  apply (returned_image_is_last_reply 1 "a castle" redirected []
           {| png_base64 := Some "iVBORw0KGgo=" |}).
  reflexivity.
Defined.

Lemma loading_wait_object members v h tr :
  lookup "error" members <> None ->
  lookup "estimated_time" members = Some v ->
  fst (Console.loading_wait (JObj members) h tr)
  = match fst (py_int v h tr) with
    | Ret t => Ret (Some t)
        | Raise e => Raise e
    end.
Proof.
  intros E1 E2. unfold Console.loading_wait, py_in, getitem.
  unfold bind at 1, ret at 1.
  destruct (lookup "error" members); [|congruence].
  unfold bind at 1, ret at 1. rewrite E2.
  unfold bind at 1. unfold ret at 1. unfold bind.
  destruct (py_int v h tr) as [[t|e] tr']; reflexivity.
Qed.

(** X4. An estimate the console client cannot wait for.  When the handler
    reads a loading notice whose estimated_time has no [int()] (null, a
    list, an object, a text that is no number) or a negative one, the
    error of [int()] or of [time.sleep] is caught by the bare [except]:
    the client returns nothing after its one request, without a sleep and
    without a second request. *)
Theorem unusable_estimate_is_not_waited_for (fuel : nat) (visual_prompt : string)
    (h : Host) (tr : list event) (r : Response)
    (members : list (string * json)) (estimated_time : json) :
  HUGGINGFACE_API_KEY h <> "" ->
  reply h (tr ++ [image_request h visual_prompt])%list = PostRaises (Some r) ->
  Response_bool r = true ->
  json_body r = Some (JObj members) ->
  lookup "error" members <> None ->
  lookup "estimated_time" members = Some estimated_time ->
  (forall t,
     fst (py_int estimated_time h (tr ++ [image_request h visual_prompt])%list) = Ret t ->
     (t < 0)%Z) ->
  Console.generate_image_with_stable_diffusion fuel visual_prompt h tr
  = (Ret None, (tr ++ [image_request h visual_prompt])%list).
Proof.
  intros K R B J E1 E2 N. rewrite (console_generate_image_cases _ _ _ _ K).
  unfold console_attempt_result. rewrite R, B, J.
  rewrite (loading_wait_object _ _ _ _ E1 E2).
  destruct (fst (py_int estimated_time h _)) as [t|e] eqn:P; try reflexivity.
  specialize (N t eq_refl).
  replace (t <? 0)%Z with true by (symmetry; now apply Z.ltb_lt).
  reflexivity.
Qed.

Lemma unusable_estimate_is_not_waited_for_witness :
  Console.generate_image_with_stable_diffusion 4 "a castle" confused []
  = (Ret None, ([] ++ [image_request confused "a castle"])%list).
Proof.
  apply (unusable_estimate_is_not_waited_for 4 "a castle" confused []
           (replied 302 (Some (loading_notice (-5))))
           [("error", JStr "Model stabilityai/stable-diffusion-xl-base-1.0 is currently loading");
            ("estimated_time", JNum (-5))]
           (JNum (-5))).
  - discriminate.
  - reflexivity.
  - reflexivity.
  - reflexivity.
  - discriminate.
  - reflexivity.
  - intros t H. simpl in H. inversion H. reflexivity.
Defined.

(** ** What the clients add to the trace *)

Lemma console_generate_image_adds fuel visual_prompt h :
  forall tr, exists more,
    snd (Console.generate_image_with_stable_diffusion fuel visual_prompt h tr)
    = (tr ++ more)%list /\
    Forall (image_event h visual_prompt) more.
Proof.
  destruct (key_cases h) as [K|K].
  { intros tr. rewrite (console_generate_image_no_key _ _ _ _ K).
    exists []. simpl. now rewrite app_nil_r. }
  assert (One : forall tr,
            exists more,
              (tr ++ [image_request h visual_prompt])%list = (tr ++ more)%list /\
              Forall (image_event h visual_prompt) more).
  { intros tr. exists [image_request h visual_prompt]. split; [reflexivity|].
    constructor; [now left|constructor]. }
  induction fuel as [|fuel IH]; intros tr;
    rewrite (console_generate_image_cases _ _ _ _ K);
    unfold console_attempt_result;
    (destruct (reply h _) as [[r|]|r];
     [ | apply One | destruct (is_error_status r); apply One ]);
    (destruct (Response_bool r); [|apply One]);
    (destruct (json_body r) as [d|]; [|apply One]);
    (destruct (fst (Console.loading_wait d h _)) as [[t|]|x]; try apply One);
        (destruct (Z.ltb_spec t 0); [apply One|]);
    (destruct (max_sleep h <? t)%Z; [apply One|]);
    rewrite swallowed_snd.
  - exists [image_request h visual_prompt; Sleep t]. simpl. split.
    + now rewrite <- app_assoc.
    + constructor; [now left|]. constructor; [right; now exists t|constructor].
  - destruct (IH ((tr ++ [image_request h visual_prompt]) ++ [Sleep t])%list)
      as (more & E & F).
    exists (image_request h visual_prompt :: Sleep t :: more). split.
    + rewrite E. now rewrite <- !app_assoc.
    + constructor; [now left|]. constructor; [right; now exists t|exact F].
Qed.

Lemma derived_snd client deriver : derived client deriver -> snd deriver = snd client.
Proof.
  unfold derived. destruct client as [[v|e] tr]; [destruct v|]; now intros ->.
Qed.

Lemma console_visual_prompt_trace v h tr :
  snd (Console.generate_visual_prompt v h tr)
  = (tr ++ [gemini_request h (Console.visual_prompt_request (shown h v))])%list.
Proof.
  rewrite (derived_snd _ _ (console_visual_prompt_derived v h tr)).
  apply console_call_gemini_api_answers.
Qed.

Lemma push_visual_prompt_trace v h tr :
  snd (Push.generate_visual_prompt_async v h tr)
  = (tr ++ [gemini_request h (Push.visual_prompt_request (shown h v))])%list.
Proof.
  rewrite (derived_snd _ _ (push_visual_prompt_derived v h tr)).
  apply push_call_gemini_api_answers.
Qed.

Lemma image_save_cases path image h tr :
  image_save path image h tr = (Ret tt, (tr ++ [Save path image])%list) \/
  image_save path image h tr = (Raise OSError, tr).
Proof.
  unfold image_save.
  destruct (png_base64 image); [destruct (writable h tr path)|]; auto.
Qed.

Lemma console_illustrate_eq fuel v n h tr :
  Console.illustrate fuel v n h tr
  = match Console.generate_visual_prompt v h tr with
    | (Ret visual_prompt, tr1) =>
        match Console.generate_image_with_stable_diffusion fuel visual_prompt h tr1 with
        | (Ret (Some image), tr2) =>
            match image_save (scene_file (S n)) image h tr2 with
            | (Ret _, tr3) => (Ret (S n), tr3)
            | (Raise e, tr3) => (Raise e, tr3)
            end
        | (Ret None, tr2) => (Ret n, tr2)
        | (Raise e, tr2) => (Raise e, tr2)
        end
    | (Raise e, tr1) => (Raise e, tr1)
    end.
Proof.
  unfold Console.illustrate, bind.
  destruct (Console.generate_visual_prompt v h tr) as [[vp|e] tr1]; try reflexivity.
  destruct (Console.generate_image_with_stable_diffusion fuel vp h tr1)
    as [[[img|]|e] tr2]; reflexivity.
Qed.

(** The trace of the illustration of a scene in the console session: the
    request for the visual prompt, what the illustration client adds, and
    the file saved if there is a picture. *)
Lemma console_illustrate_trace fuel v n h tr :
  exists visual_prompt more saved,
    Forall (image_event h visual_prompt) more /\
    snd (Console.illustrate fuel v n h tr)
    = (tr ++ gemini_request h (Console.visual_prompt_request (shown h v))
          :: more ++ saved)%list /\
    ((saved = [] /\
      forall n', fst (Console.illustrate fuel v n h tr) = Ret n' -> n' = n) \/
     (exists image,
        saved = [Save (scene_file (S n)) image] /\
        fst (Console.illustrate fuel v n h tr) = Ret (S n))).
Proof.
  rewrite console_illustrate_eq.
  pose proof (console_visual_prompt_trace v h tr) as T.
  destruct (Console.generate_visual_prompt v h tr) as [[vp|e] tr1];
    simpl in T; subst tr1.
  - destruct (console_generate_image_adds fuel vp h
                (tr ++ [gemini_request h (Console.visual_prompt_request (shown h v))])%list)
      as (more & E & F).
    destruct (Console.generate_image_with_stable_diffusion fuel vp h _)
      as [[[img|]|e] tr2]; simpl in E; subst tr2.
    + destruct (image_save_cases (scene_file (S n)) img h
                  ((tr ++ [gemini_request h
                             (Console.visual_prompt_request (shown h v))]) ++ more)%list)
        as [W|W]; rewrite W.
      * exists vp, more, [Save (scene_file (S n)) img]. split; [exact F|]. split.
        -- simpl. now rewrite <- !app_assoc.
        -- right. now exists img.
      * exists vp, more, []. split; [exact F|]. split.
        -- simpl. now rewrite app_nil_r, <- app_assoc.
        -- left. split; [reflexivity|]. simpl. intros n' H. discriminate.
    + exists vp, more, []. split; [exact F|]. split.
      * simpl. now rewrite app_nil_r, <- app_assoc.
      * left. split; [reflexivity|]. simpl. intros n' H. now inversion H.
    + exists vp, more, []. split; [exact F|]. split.
      * simpl. now rewrite app_nil_r, <- app_assoc.
      * left. split; [reflexivity|]. simpl. intros n' H. discriminate.
  - exists "", [], []. split; [constructor|]. split; [reflexivity|].
    left. split; [reflexivity|]. simpl. intros n' H. discriminate.
Qed.

(** The trace of the delivery of a scene in the push session: the story
    message first, then the request for the visual prompt, then what the
    picture adds. *)
Lemma push_deliver_trace v h tr :
  exists tail,
    Forall (push_image_event h) tail /\
    snd (Push.deliver v h tr)
    = (tr ++ Send (story_message v)
          :: gemini_request h (Push.visual_prompt_request (shown h v))
          :: tail)%list.
Proof.
  unfold Push.deliver. unfold bind at 1, emit. unfold bind at 1.
  fold (story_message v).
  pose proof (push_visual_prompt_trace v h (tr ++ [Send (story_message v)])%list) as T.
  destruct (Push.generate_visual_prompt_async v h _) as [[vp|e] tr1];
    simpl in T; subst tr1;
    try (exists []; split; [constructor|simpl; now rewrite <- app_assoc]).
  unfold bind at 1, Push.generate_image_async.
  destruct (key_cases h) as [K|K].
  - rewrite (push_generate_image_no_key _ _ _ K).
    exists []. split; [constructor|]. simpl. now rewrite <- app_assoc.
  - rewrite (push_image_attempt _ _ _ K).
    set (o := match reply h _ with PostRaises _ => _ | PostReturns _ => _ end).
    destruct o as [[data|]|e].
    + destruct (String.eqb_spec data "") as [->|Hne]; simpl.
      * exists [image_request h vp]. split.
        -- constructor; [left; now exists vp|constructor].
        -- now rewrite <- !app_assoc.
      * exists [image_request h vp; Send (image_message data)]. split.
        -- constructor; [left; now exists vp|].
           constructor; [right; now exists data|constructor].
        -- unfold emit, image_message. now rewrite <- !app_assoc.
        + exists [image_request h vp]. split.
      * constructor; [left; now exists vp|constructor].
      * simpl. now rewrite <- !app_assoc.
    + exists [image_request h vp]. split.
      * constructor; [left; now exists vp|constructor].
      * simpl. now rewrite <- !app_assoc.
Qed.

(** ** Classes of events a session adds *)

Section Adds.

Context (P : event -> Prop) (h : Host).

Lemma adds_ret {A} (a : A) : adds P h (ret a).
Proof. intros tr. exists []. simpl. now rewrite app_nil_r. Qed.

Lemma adds_raise {A} (e : exn) : adds P h (@raise A e).
Proof. intros tr. exists []. simpl. now rewrite app_nil_r. Qed.

Lemma adds_bind {A B} (m : M A) (k : A -> M B) :
  adds P h m -> (forall a, adds P h (k a)) -> adds P h (bind m k).
Proof.
  intros Hm Hk tr. unfold bind.
  destruct (Hm tr) as (more1 & E1 & F1).
  destruct (m h tr) as [[a|e] tr1]; simpl in E1; subst tr1.
  - destruct (Hk a (tr ++ more1)%list) as (more2 & E2 & F2).
    exists (more1 ++ more2)%list. split.
      + now rewrite E2, app_assoc.
    + now apply Forall_app.
  - now exists more1.
Qed.

Lemma adds_exactly {A} (m : M A) (l : M A -> list event) :
  (forall tr, snd (m h tr) = (tr ++ l m)%list) -> Forall P (l m) -> adds P h m.
Proof. intros E F tr. exists (l m). now rewrite E. Qed.

Lemma adds_py_str v : adds P h (py_str v).
Proof.
  intros tr. exists []. rewrite py_str_shown. simpl. now rewrite app_nil_r.
Qed.

End Adds.

Lemma adds_weaken (P Q : event -> Prop) h {A} (m : M A) :
  (forall e, P e -> Q e) -> adds P h m -> adds Q h m.
Proof.
  intros I Hm tr. destruct (Hm tr) as (more & E & F).
  exists more. split; [exact E|]. eapply Forall_impl; eauto.
Qed.

Lemma image_event_console h visual_prompt e :
  image_event h visual_prompt e -> console_event h e.
Proof. intros H. right. left. now exists visual_prompt. Qed.

Lemma adds_console_call_gemini_api h prompt :
  adds (console_event h) h (Console.call_gemini_api prompt).
Proof.
  intros tr. exists [gemini_request h prompt]. split.
  - apply console_call_gemini_api_answers.
  - constructor; [left; now exists prompt|constructor].
Qed.

Lemma adds_push_call_gemini_api h prompt :
  adds (push_event h) h (Push.call_gemini_api prompt).
Proof.
  intros tr. exists [gemini_request h prompt]. split.
  - apply push_call_gemini_api_answers.
  - constructor; [left; now exists prompt|constructor].
Qed.

Lemma adds_console_illustrate fuel v n h :
  adds (console_event h) h (Console.illustrate fuel v n).
Proof.
  intros tr.
  destruct (console_illustrate_trace fuel v n h tr)
    as (vp & more & saved & F & E & S).
  eexists. split; [exact E|].
  constructor; [left; now eexists|].
  apply Forall_app. split.
  - eapply Forall_impl; [|exact F]. apply image_event_console.
  - destruct S as [[-> _]|(img & -> & _)]; [constructor|].
    constructor; [|constructor]. right. right. now exists (S n), img.
Qed.

Lemma push_image_event_push h e : push_image_event h e -> push_event h e.
Proof.
  intros [H|H]; [right; left; exact H|right; right; right; exact H].
Qed.

Lemma adds_push_deliver v h : adds (push_event h) h (Push.deliver v).
Proof.
  intros tr. destruct (push_deliver_trace v h tr) as (tail & F & E).
  eexists. split; [exact E|].
  constructor; [right; right; left; now exists v|].
  constructor; [left; now eexists|].
  eapply Forall_impl; [|exact F]. apply push_image_event_push.
Qed.

Lemma adds_console_loop_body fuel st line h :
  adds (console_event h) h (Console.loop_body fuel st line).
Proof.
  unfold Console.loop_body.
  destruct (String.eqb (upper line) "QUIT"); [apply adds_ret|].
  destruct (negb (in_list (upper line) ["A"; "B"])); [apply adds_ret|].
  apply adds_bind; [apply adds_console_call_gemini_api|]. intros v.
  apply adds_bind; [apply adds_py_str|]. intros scene.
  apply adds_bind; [apply adds_console_illustrate|]. intros n.
  apply adds_ret.
Qed.

Lemma adds_console_game_loop fuel h stdin :
  forall st, adds (console_event h) h (Console.game_loop fuel st stdin).
Proof.
    induction stdin as [|line rest IH]; intros st; cbn [Console.game_loop];
    (apply adds_bind;
     [unfold Console.print_scene; destruct (Console.scene_text st);
      first [apply adds_ret|apply adds_raise]|]; intros _).
  - apply adds_raise.
  - apply adds_bind; [apply adds_console_loop_body|].
    intros [[|] st']; [apply adds_ret|apply IH].
Qed.

Lemma adds_push_loop_body story_history data h :
  adds (push_event h) h (Push.loop_body story_history data).
Proof.
  unfold Push.loop_body, Push.call_gemini_api_async.
  apply adds_bind.
  { unfold py_get. destruct data; first [apply adds_ret|apply adds_raise]. }
  intros c.
  destruct (negb (is_text "A" c || is_text "B" c)); [apply adds_ret|].
  apply adds_bind; [apply adds_py_str|]. intros choice.
  apply adds_bind; [apply adds_push_call_gemini_api|]. intros v.
  apply adds_bind; [apply adds_py_str|]. intros scene.
  apply adds_bind; [apply adds_push_deliver|]. intros _.
  apply adds_ret.
Qed.

Lemma adds_push_session_loop h inbox :
  forall story_history, adds (push_event h) h (Push.session_loop story_history inbox).
Proof.
  induction inbox as [|data rest IH]; intros story_history; simpl.
  - apply adds_ret.
  - apply adds_bind; [apply adds_push_loop_body|]. intros hist. apply IH.
Qed.

(** X5. What a session does to the outside world, and what it never does.
    However it ends, a console session only posts requests to the text
    service (at its URL with GEMINI_API_KEY appended, with the prompt as
    the only content) and to the image service (with HUGGINGFACE_API_KEY
    in the Authorization header), sleeps for lengths that are not
    negative, and saves files named scene_<n>.png; it pushes no message.
    A push session only posts the same two kinds of request and pushes
    story messages and image messages with a non-empty picture; it never
    sleeps and never saves a file. *)
Theorem session_events (h : Host) (tr : list event) :
  (forall fuel stdin,
     exists more,
       snd (Console.main_game_loop fuel stdin h tr) = (tr ++ more)%list /\
       Forall (console_event h) more) /\
  (forall inbox,
     exists more,
       snd (Push.websocket_endpoint inbox h tr) = (tr ++ more)%list /\
       Forall (push_event h) more).
Proof.
  split.
  - intros fuel stdin. revert tr.
    change (adds (console_event h) h (Console.main_game_loop fuel stdin)).
    destruct stdin as [|user_idea rest]; simpl; [apply adds_raise|].
    apply adds_bind; [apply adds_console_call_gemini_api|]. intros v.
    apply adds_bind; [apply adds_py_str|]. intros scene.
    apply adds_bind; [apply adds_console_illustrate|]. intros n.
    apply adds_console_game_loop.
  - intros inbox. revert tr.
    change (adds (push_event h) h (Push.websocket_endpoint inbox)).
    destruct inbox as [|initial_data rest]; simpl; [apply adds_ret|].
    unfold Push.call_gemini_api_async.
    apply adds_bind.
    { unfold py_get. destruct initial_data; first [apply adds_ret|apply adds_raise]. }
    intros idea.
    apply adds_bind; [apply adds_py_str|]. intros i.
    apply adds_bind; [apply adds_push_call_gemini_api|]. intros v.
    apply adds_bind; [apply adds_py_str|]. intros scene.
    apply adds_bind; [apply adds_push_deliver|]. intros _.
    apply adds_push_session_loop.
Qed.

(** ** Counting along a session *)

Lemma saved_paths_app a b : saved_paths (a ++ b) = (saved_paths a ++ saved_paths b)%list.
Proof. apply flat_map_app. Qed.

Lemma stories_app a b : stories (a ++ b) = (stories a ++ stories b)%list.
Proof. apply flat_map_app. Qed.

Lemma gemini_posts_app h a b :
  gemini_posts h (a ++ b) = gemini_posts h a + gemini_posts h b.
Proof. unfold gemini_posts. now rewrite filter_app, length_app. Qed.

Lemma image_url_is_not_gemini_url key :
  (STABLE_DIFFUSION_API_URL =? GEMINI_API_URL ++ key)%string = false.
Proof. reflexivity. Qed.

Lemma image_events_quiet h visual_prompt more :
  Forall (image_event h visual_prompt) more ->
  saved_paths more = [] /\ gemini_posts h more = 0 /\ stories more = [].
Proof.
  induction 1 as [|e more He F IH]; [now repeat split|].
  destruct IH as (I1 & I2 & I3).
  change (e :: more) with ([e] ++ more)%list.
  rewrite saved_paths_app, gemini_posts_app, stories_app, I1, I2, I3.
  destruct He as [->|(t & -> & _)]; [|now repeat split].
  unfold gemini_posts, image_request.
  cbn [filter is_gemini_post saved_paths stories flat_map story_of app].
  now rewrite image_url_is_not_gemini_url.
Qed.

Lemma push_image_events_quiet h tail :
  Forall (push_image_event h) tail ->
  gemini_posts h tail = 0 /\ stories tail = [].
Proof.
  induction 1 as [|e tail He F IH]; [now split|].
  destruct IH as (I2 & I3).
  change (e :: tail) with ([e] ++ tail)%list.
  rewrite gemini_posts_app, stories_app, I2, I3.
  destruct He as [(vp & ->)|(data & _ & ->)]; [|now split].
  unfold gemini_posts, image_request.
  cbn [filter is_gemini_post stories flat_map story_of app].
  now rewrite image_url_is_not_gemini_url.
Qed.

Lemma gemini_request_counts h prompt :
  gemini_posts h [gemini_request h prompt] = 1 /\
  saved_paths [gemini_request h prompt] = [] /\
  stories [gemini_request h prompt] = [].
Proof.
  unfold gemini_posts, gemini_request.
  cbn [filter is_gemini_post saved_paths stories flat_map story_of app].
  now rewrite String.eqb_refl.
Qed.

(** A pass of the console loop on a valid choice that reaches its end. *)
Lemma console_pass_trace fuel st line h tr flow st' tr' :
  in_list (upper line) ["A"; "B"] = true ->
  Console.loop_body fuel st line h tr = (Ret (flow, st'), tr') ->
  exists v visual_prompt more saved,
    Forall (image_event h visual_prompt) more /\
    tr' = (tr ++ console_turn_request h (Console.story_history st) (upper line)
              :: gemini_request h (Console.visual_prompt_request (shown h v))
              :: more ++ saved)%list /\
    Console.story_history st'
    = (Console.story_history st ++ turn_lines [(upper line, shown h v)])%list /\
    ((saved = [] /\ Console.scene_counter st' = Console.scene_counter st) \/
     (exists image,
        saved = [Save (scene_file (S (Console.scene_counter st))) image] /\
        Console.scene_counter st' = S (Console.scene_counter st))).
Proof.
  intros V H. rewrite (console_loop_body_valid _ _ _ _ _ V) in H.
  unfold console_turn in H.
  pose proof (console_call_gemini_api_answers h
                (Console.next_prompt
                   (append (Console.story_history st) ("User chose: " ++ upper line)))
                tr) as [T _].
  destruct (Console.call_gemini_api _ h tr) as [[v|e] tr1]; try discriminate.
  simpl in T. subst tr1.
  fold (console_turn_request h (Console.story_history st) (upper line)) in H.
  destruct (console_illustrate_trace fuel v (Console.scene_counter st) h
              (tr ++ [console_turn_request h (Console.story_history st) (upper line)])%list)
    as (vp & more & saved & F & E & S).
  destruct (Console.illustrate fuel v _ h _) as [[n|e] tr2]; try discriminate.
  simpl in E, S. inversion H; subst. simpl.
  exists v, vp, more, saved. split; [exact F|]. split.
  - now rewrite <- app_assoc.
  - split.
    + unfold append. now rewrite <- app_assoc.
    + destruct S as [[-> Hn]|(img & -> & Hn)].
      * left. split; [reflexivity|]. now apply Hn.
      * right. exists img. split; [reflexivity|]. now inversion Hn.
Qed.

(** What holds of a console session and its trace at the start of the
    loop and is kept by every pass on a valid choice holds when the loop
    is left. *)
Lemma console_game_loop_invariant (Inv : Console.Session -> list event -> Prop)
    fuel h :
  (forall st line tr flow st' tr',
     in_list (upper line) ["A"; "B"] = true -> Inv st tr ->
     Console.loop_body fuel st line h tr = (Ret (flow, st'), tr') -> Inv st' tr') ->
  forall stdin st tr st' tr',
    Inv st tr -> Console.game_loop fuel st stdin h tr = (Ret st', tr') -> Inv st' tr'.
Proof.
    intros Step. induction stdin as [|line rest IH]; intros st tr st' tr' I H.
  { rewrite console_game_loop_nil in H.
    destruct (Console.scene_text st); discriminate. }
  rewrite console_game_loop_cons in H.
  destruct (Console.scene_text st); try discriminate.
  destruct (in_list (upper line) ["A"; "B"]) eqn:V.
  - destruct (Console.loop_body fuel st line h tr) as [[[flow st1]|e] tr1] eqn:L;
      try discriminate.
    specialize (Step _ _ _ _ _ _ V I L).
    destruct flow; [inversion H; now subst|]. exact (IH _ _ _ _ Step H).
  - assert (HA : upper line <> "A") by (intros E; rewrite E in V; discriminate).
    assert (HB : upper line <> "B") by (intros E; rewrite E in V; discriminate).
    rewrite (console_loop_body_invalid _ _ _ _ _ HA HB) in H.
    destruct (String.eqb (upper line) "QUIT").
    + inversion H; now subst.
    + exact (IH _ _ _ _ I H).
Qed.

(** The opening of a console session that reaches its loop. *)
Lemma console_opening_trace fuel user_idea rest h tr st' tr' :
  Console.main_game_loop fuel (user_idea :: rest) h tr = (Ret st', tr') ->
  exists st0 tr0 v visual_prompt more saved,
    Console.game_loop fuel st0 rest h tr0 = (Ret st', tr') /\
    Forall (image_event h visual_prompt) more /\
    tr0 = (tr ++ gemini_request h (Console.initial_prompt user_idea)
              :: gemini_request h (Console.visual_prompt_request (shown h v))
              :: more ++ saved)%list /\
    Console.story_history st0
    = ["The user's character is " ++ user_idea ++ "."; "AI Scene: " ++ shown h v] /\
    ((saved = [] /\ Console.scene_counter st0 = 0) \/
     (exists image,
        saved = [Save (scene_file 1) image] /\ Console.scene_counter st0 = 1)).
Proof.
  simpl. unfold bind.
  pose proof (console_call_gemini_api_answers h (Console.initial_prompt user_idea) tr)
    as [T _].
  destruct (Console.call_gemini_api _ h tr) as [[v|e] tr1]; try discriminate.
  simpl in T. subst tr1. rewrite py_str_shown.
  destruct (console_illustrate_trace fuel v 0 h
              (tr ++ [gemini_request h (Console.initial_prompt user_idea)])%list)
    as (vp & more & saved & F & E & S).
  destruct (Console.illustrate fuel v 0 h _) as [[n|e] tr2]; try discriminate.
  simpl in E, S. subst tr2. intros H.
  eexists. eexists. exists v, vp, more, saved.
  split; [exact H|]. split; [exact F|]. split; [now rewrite <- app_assoc|].
  split; [reflexivity|]. simpl.
  destruct S as [[-> Hn]|(img & -> & Hn)].
  - left. split; [reflexivity|]. now apply Hn.
  - right. exists img. split; [reflexivity|]. now inversion Hn.
Qed.

Lemma turn_counts h prompt1 prompt2 visual_prompt tr more saved :
  Forall (image_event h visual_prompt) more ->
  let tr' := (tr ++ gemini_request h prompt1 :: gemini_request h prompt2
                 :: more ++ saved)%list in
  saved_paths tr' = (saved_paths tr ++ saved_paths saved)%list /\
  gemini_posts h tr' = gemini_posts h tr + 2 + gemini_posts h saved.
Proof.
  intros F tr'. subst tr'.
  destruct (image_events_quiet _ _ _ F) as (Q1 & Q2 & _).
  destruct (gemini_request_counts h prompt1) as (A1 & A2 & _).
  destruct (gemini_request_counts h prompt2) as (B1 & B2 & _).
  change (gemini_request h prompt1 :: gemini_request h prompt2 :: more ++ saved)%list
    with ([gemini_request h prompt1] ++ [gemini_request h prompt2] ++ more ++ saved)%list.
  rewrite !saved_paths_app, !gemini_posts_app, Q1, Q2, A1, A2, B1, B2.
  split; [reflexivity|lia].
Qed.

Lemma append_cons c (s t : string) : String c s ++ t = String c (s ++ t).
Proof. reflexivity. Qed.

Lemma append_empty (t : string) : "" ++ t = t.
Proof. reflexivity. Qed.

Lemma length_append (s t : string) :
  String.length (s ++ t) = String.length s + String.length t.
Proof.
  induction s as [|c s IH]; [reflexivity|].
  rewrite append_cons. cbn [String.length]. now rewrite IH.
Qed.

Lemma append_cancel_right (s s' t : string) : s ++ t = s' ++ t -> s = s'.
Proof.
  revert s'. induction s as [|c s IH]; intros s' H.
  - destruct s' as [|c' s']; [reflexivity|]. exfalso.
    apply (f_equal String.length) in H.
    rewrite !length_append in H. cbn [String.length] in H. lia.
  - destruct s' as [|c' s'].
    + exfalso. apply (f_equal String.length) in H.
      rewrite !length_append in H. cbn [String.length] in H. lia.
    + rewrite !append_cons in H. inversion H; subst. f_equal. now apply IH.
Qed.

Lemma append_cancel_left (s t t' : string) : s ++ t = s ++ t' -> t = t'.
Proof.
  induction s as [|c s IH]; [now rewrite !append_empty|].
  rewrite !append_cons. intros H. inversion H. now apply IH.
Qed.

Lemma scene_file_injective n m : scene_file n = scene_file m -> n = m.
Proof.
  unfold scene_file, decimal. intros H.
  assert (E : NilEmpty.string_of_uint (Nat.to_uint n) ++ ".png"
              = NilEmpty.string_of_uint (Nat.to_uint m) ++ ".png").
  { now apply (append_cancel_left "scene_"). }
  apply append_cancel_right in E.
  apply Unsigned.to_uint_inj.
  assert (U : Some (Nat.to_uint n) = Some (Nat.to_uint m)).
  { rewrite <- !NilEmpty.usu. now rewrite E. }
  now inversion U.
Qed.

Lemma scene_files_distinct n : NoDup (map scene_file (seq 1 n)).
Proof.
  assert (G : forall l, NoDup l -> NoDup (map scene_file l)).
  { induction 1 as [|x l X N IH]; simpl; constructor; [|exact IH].
    rewrite in_map_iff. intros (y & E & Y).
    apply scene_file_injective in E. now subst. }
  apply G, seq_NoDup.
Qed.

(** X6. The illustrations of a console session are numbered in order.
    When the session is left by the quit signal, the files it saved are
    scene_1.png, scene_2.png, ... up to the final scene_counter, in that
    order and each once: a scene without a picture takes no number, and no
    picture of the session is overwritten by a later one. *)
Theorem illustrations_are_numbered (fuel : nat) (stdin : list string)
    (h : Host) (tr : list event) (st' : Console.Session) (tr' : list event) :
  Console.main_game_loop fuel stdin h tr = (Ret st', tr') ->
  saved_paths tr'
  = (saved_paths tr ++ map scene_file (seq 1 (Console.scene_counter st')))%list /\
  NoDup (map scene_file (seq 1 (Console.scene_counter st'))).
Proof.
  intros H. split; [|apply scene_files_distinct].
  destruct stdin as [|user_idea rest]; [discriminate|].
  apply console_opening_trace in H.
  destruct H as (st0 & tr0 & v & vp & more & saved & L & F & E & _ & S).
  revert L.
  apply (console_game_loop_invariant
           (fun st t =>
              saved_paths t
              = (saved_paths tr ++ map scene_file (seq 1 (Console.scene_counter st)))%list)).
  - intros st line t flow st1 t1 V I P.
    apply console_pass_trace in P; [|exact V].
    destruct P as (v1 & vp1 & more1 & saved1 & F1 & E1 & _ & S1).
    unfold console_turn_request in E1.
    destruct (turn_counts h
                (Console.next_prompt
                   (append (Console.story_history st)
                      ("User chose: " ++ upper line)%string))
                (Console.visual_prompt_request (shown h v1))
                vp1 t more1 saved1 F1) as [C _].
    rewrite E1, C, I.
    destruct S1 as [[-> ->]|(img & -> & ->)].
    + simpl. now rewrite app_nil_r.
    + rewrite seq_S, map_app. simpl. now rewrite <- app_assoc.
  - destruct (turn_counts h (Console.initial_prompt user_idea)
                (Console.visual_prompt_request (shown h v)) vp tr more saved F)
      as [C _].
    rewrite E, C.
    destruct S as [[-> ->]|(img & -> & ->)]; reflexivity.
Qed.

Lemma illustrations_are_numbered_witness :
  saved_paths
    (snd (Console.main_game_loop 0 ["a knight in a haunted forest"; "b"; "quit"]
            illustrated []))
  = (saved_paths [] ++ map scene_file (seq 1 2))%list /\
  NoDup (map scene_file (seq 1 2)).
Proof.
  apply (illustrations_are_numbered 0
           ["a knight in a haunted forest"; "b"; "quit"] illustrated []
           {| Console.story_history :=
                ["The user's character is a knight in a haunted forest.";
                 "AI Scene: You stand at a gate. A) Enter B) Leave";
                 "User chose: B";
                 "AI Scene: The gate creaks open. A) Go on B) Wait"];
              Console.scene_text := JStr "The gate creaks open. A) Go on B) Wait";
              Console.scene_counter := 2 |}).
  vm_compute. reflexivity.
Defined.

Lemma push_turn_counts h prompt1 prompt2 v tr tail :
  Forall (push_image_event h) tail ->
  let tr' := (tr ++ gemini_request h prompt1 :: Send (story_message v)
                 :: gemini_request h prompt2 :: tail)%list in
  stories tr' = (stories tr ++ [v])%list /\
  gemini_posts h tr' = gemini_posts h tr + 2.
Proof.
  intros F tr'. subst tr'.
  destruct (push_image_events_quiet _ _ F) as (Q2 & Q3).
  destruct (gemini_request_counts h prompt1) as (A1 & _ & A3).
  destruct (gemini_request_counts h prompt2) as (B1 & _ & B3).
  change (gemini_request h prompt1 :: Send (story_message v)
            :: gemini_request h prompt2 :: tail)%list
    with ([gemini_request h prompt1] ++ [Send (story_message v)]
            ++ [gemini_request h prompt2] ++ tail)%list.
  rewrite !stories_app, !gemini_posts_app, Q2, Q3, A1, A3, B1, B3.
  split; [reflexivity|]. unfold gemini_posts. simpl. lia.
Qed.

(** A pass of the push loop on a valid choice that reaches its end. *)
Lemma push_pass_trace story_history members c h tr story_history' tr' :
  lookup "choice" members = Some (JStr c) ->
  in_list c ["A"; "B"] = true ->
  Push.loop_body story_history (JObj members) h tr = (Ret story_history', tr') ->
  exists v tail,
    Forall (push_image_event h) tail /\
    tr' = (tr ++ push_turn_request h story_history c
              :: Send (story_message v)
              :: gemini_request h (Push.visual_prompt_request (shown h v))
              :: tail)%list /\
    story_history' = (story_history ++ turn_lines [(c, shown h v)])%list.
Proof.
  intros E V H. rewrite (push_loop_body_valid _ _ _ _ _ E V) in H.
  unfold push_turn in H.
  pose proof (push_call_gemini_api_answers h
                (Push.next_prompt (append story_history ("User chose: " ++ c))) tr)
    as [T _].
  destruct (Push.call_gemini_api _ h tr) as [[v|e] tr1]; try discriminate.
  simpl in T. subst tr1.
  fold (push_turn_request h story_history c) in H.
  destruct (push_deliver_trace v h (tr ++ [push_turn_request h story_history c])%list)
    as (tail & F & D).
  destruct (Push.deliver v h _) as [[[]|e] tr2]; try discriminate.
  simpl in D. inversion H; subst.
  exists v, tail. split; [exact F|]. split.
  - now rewrite <- app_assoc.
  - unfold append. now rewrite <- app_assoc.
Qed.

Lemma push_session_loop_invariant (Inv : list string -> list event -> Prop) h :
  (forall story_history members c tr story_history' tr',
     lookup "choice" members = Some (JStr c) ->
     in_list c ["A"; "B"] = true -> Inv story_history tr ->
     Push.loop_body story_history (JObj members) h tr = (Ret story_history', tr') ->
     Inv story_history' tr') ->
  forall inbox story_history tr story_history' tr',
    Inv story_history tr ->
    Push.session_loop story_history inbox h tr = (Ret story_history', tr') ->
    Inv story_history' tr'.
Proof.
  intros Step. induction inbox as [|data rest IH]; intros hist tr hist' tr' I H;
    simpl in H.
  - inversion H; now subst.
  - unfold bind in H.
    destruct data as [| | | | |members];
      try (rewrite push_loop_body_not_object in H by congruence; discriminate).
    destruct (lookup "choice" members) as [[| | |c| |]|] eqn:E;
      try (rewrite push_loop_body_invalid in H by congruence;
           exact (IH _ _ _ _ I H)).
    destruct (in_list c ["A"; "B"]) eqn:V.
    + destruct (Push.loop_body hist (JObj members) h tr) as [[hist1|e] tr1] eqn:L;
        try discriminate.
      exact (IH _ _ _ _ (Step _ _ _ _ _ _ E V I L) H).
    + assert (HA : c <> "A") by (intros ->; discriminate).
      assert (HB : c <> "B") by (intros ->; discriminate).
      rewrite push_loop_body_invalid in H by congruence.
      exact (IH _ _ _ _ I H).
Qed.

(** The opening of a push session that reaches its loop. *)
Lemma push_opening_trace members rest h tr story_history' tr' :
  Push.websocket_endpoint (JObj members :: rest) h tr = (Ret story_history', tr') ->
  let idea := shown h (match lookup "idea" members with
                       | Some x => x
                       | None => JStr Push.default_idea
                       end) in
  exists tr0 v tail,
    Push.session_loop
      ["The user's character is " ++ idea ++ "."; "AI Scene: " ++ shown h v]
      rest h tr0 = (Ret story_history', tr') /\
    Forall (push_image_event h) tail /\
    tr0 = (tr ++ gemini_request h (Push.initial_prompt idea)
              :: Send (story_message v)
              :: gemini_request h (Push.visual_prompt_request (shown h v))
              :: tail)%list.
Proof.
  simpl. intros H. unfold bind, py_get in H.
  unfold ret in H at 1. rewrite py_str_shown in H.
  unfold Push.call_gemini_api_async in H.
  set (idea := shown h _) in *. cbv zeta.
  pose proof (push_call_gemini_api_answers h (Push.initial_prompt idea) tr) as [T _].
  destruct (Push.call_gemini_api _ h tr) as [[v|e] tr1]; try discriminate.
  simpl in T. subst tr1. rewrite py_str_shown in H.
  destruct (push_deliver_trace v h
              (tr ++ [gemini_request h (Push.initial_prompt idea)])%list)
    as (tail & F & D).
  destruct (Push.deliver v h _) as [[[]|e] tr2]; try discriminate.
  simpl in D. subst tr2.
  eexists. exists v, tail. split; [exact H|]. split; [exact F|].
  now rewrite <- app_assoc.
Qed.



Lemma transcript_app idea opening turns more :
  transcript idea opening (turns ++ more)
  = (transcript idea opening turns ++ turn_lines more)%list.
Proof. unfold transcript, turn_lines. now rewrite flat_map_app. Qed.



(** ** Input the loops pass over *)

Lemma console_unheeded line :
  console_heeded line = false ->
  upper line <> "A" /\ upper line <> "B" /\ upper line <> "QUIT".
Proof.
  unfold console_heeded, in_list. simpl. intros H.
  repeat split; intros E; rewrite E in H; discriminate.
Qed.

(** X9. Lines that are no choice leave no mark on a console session.  A
    line whose upper-case form is neither A nor B nor QUIT can be struck
    from the input: the session with it and the session without it
    end the same way, with the same transcript and the same trace. *)
Theorem ignored_lines_leave_no_mark (fuel : nat) (h : Host) (stdin : list string) :
  (forall st tr,
     Console.game_loop fuel st stdin h tr
     = Console.game_loop fuel st (filter console_heeded stdin) h tr) /\
  (forall user_idea tr,
     Console.main_game_loop fuel (user_idea :: stdin) h tr
     = Console.main_game_loop fuel (user_idea :: filter console_heeded stdin) h tr).
Proof.
  assert (G : forall st tr,
            Console.game_loop fuel st stdin h tr
            = Console.game_loop fuel st (filter console_heeded stdin) h tr).
  { induction stdin as [|line rest IH]; intros st tr; [reflexivity|].
    cbn [filter]. destruct (console_heeded line) eqn:Hd.
        - rewrite !console_game_loop_cons.
      destruct (Console.scene_text st); try reflexivity.
      destruct (Console.loop_body fuel st line h tr) as [[[[|] st1]|e] tr1];
        try reflexivity.
      apply IH.
    - destruct (console_unheeded _ Hd) as (HA & HB & HQ).
      rewrite console_game_loop_cons.
      rewrite (console_loop_body_invalid _ _ _ _ _ HA HB).
      destruct (String.eqb_spec (upper line) "QUIT"); [contradiction|].
      destruct (Console.scene_text st) eqn:Sc; try apply IH;
        symmetry; apply console_game_loop_no_text; rewrite Sc; discriminate. }
  split; [exact G|].
  intros user_idea tr. cbn [Console.main_game_loop]. unfold bind.
  destruct (Console.call_gemini_api _ h tr) as [[v|e] tr1]; try reflexivity.
  destruct (py_str v h tr1) as [[s|e] tr2]; try reflexivity.
  destruct (Console.illustrate fuel v 0 h tr2) as [[n|e] tr3]; try reflexivity.
  apply G.
Qed.

Lemma push_unheeded members :
  push_heeded (JObj members) = false ->
  lookup "choice" members <> Some (JStr "A") /\
  lookup "choice" members <> Some (JStr "B").
Proof.
  unfold push_heeded, push_choice.
  destruct (lookup "choice" members) as [[| | |c| |]|]; try (split; congruence).
  destruct (in_list c ["A"; "B"]) eqn:V; [discriminate|].
  intros _. split; intros E; inversion E; subst; discriminate.
Qed.

(** X10. Messages that carry no choice leave no mark on a push session.  As
    long as every message is a JSON object, a message whose choice member
    is missing or is not the string "A" or "B" can be struck from what the
    client sends: the session with it and the session without it end the
    same way, with the same transcript and the same trace. *)
Theorem ignored_messages_leave_no_mark (h : Host) (inbox : list json) :
  forallb is_object inbox = true ->
  forall story_history tr,
    Push.session_loop story_history inbox h tr
    = Push.session_loop story_history (filter push_heeded inbox) h tr.
Proof.
  induction inbox as [|data rest IH]; intros O hist tr; [reflexivity|].
  cbn [forallb] in O. apply andb_true_iff in O. destruct O as [Od Or].
  destruct data as [| | | | |members]; try discriminate.
  cbn [filter]. destruct (push_heeded (JObj members)) eqn:Hd.
  - cbn [Push.session_loop]. unfold bind.
    destruct (Push.loop_body hist (JObj members) h tr) as [[hist1|e] tr1];
      try reflexivity.
    now apply IH.
  - destruct (push_unheeded _ Hd) as (HA & HB).
    cbn [Push.session_loop]. unfold bind.
    rewrite (push_loop_body_invalid _ _ _ _ HA HB). now apply IH.
Qed.

Lemma ignored_messages_leave_no_mark_witness :
  Push.session_loop ["The user's character is a knight."]
    [JObj [("choice", JStr "a")]; JObj [("choice", JStr "B")]; JObj []]
    storyteller []
  = Push.session_loop ["The user's character is a knight."]
      (filter push_heeded
         [JObj [("choice", JStr "a")]; JObj [("choice", JStr "B")]; JObj []])
      storyteller [].
Proof.
  apply (ignored_messages_leave_no_mark storyteller
           [JObj [("choice", JStr "a")]; JObj [("choice", JStr "B")]; JObj []]).
  reflexivity.
Defined.

(** ** The prompt of a turn carries the whole transcript *)

Lemma append_assoc (s t u : string) : (s ++ t) ++ u = s ++ t ++ u.
Proof.
  induction s as [|c s IH]; [reflexivity|].
  rewrite !append_cons. now rewrite IH.
Qed.

Lemma append_empty_right (s : string) : s ++ "" = s.
Proof.
  induction s as [|c s IH]; [reflexivity|]. rewrite append_cons. now rewrite IH.
Qed.

Lemma prefix_append (s t : string) : prefix s (s ++ t) = true.
Proof.
  induction s as [|c s IH]; [now destruct t|].
  rewrite append_cons. cbn [prefix].
  destruct (ascii_dec c c); [exact IH|contradiction].
Qed.

Lemma contains_append (needle before after : string) :
  contains needle (before ++ needle ++ after) = true.
Proof.
  induction before as [|c before IH].
  - rewrite append_empty.
    destruct (needle ++ after) eqn:E; cbn [contains];
      rewrite <- E, prefix_append; reflexivity.
  - rewrite append_cons. cbn [contains]. rewrite IH. apply orb_true_r.
Qed.

Lemma join_holds_every_line sep lines line :
  In line lines ->
  exists before after, join sep lines = before ++ line ++ after.
Proof.
  unfold join. induction lines as [|x xs IH]; [contradiction|].
  intros [->|Hin].
  - exists "". destruct xs as [|y ys].
    + exists "". cbn [String.concat]. now rewrite append_empty, append_empty_right.
    + exists (sep ++ String.concat sep (y :: ys)). cbn [String.concat]. now rewrite append_empty.
  - destruct xs as [|y ys]; [contradiction|].
    destruct (IH Hin) as (before & after & E).
    exists (x ++ sep ++ before), after.
    change (String.concat sep (x :: y :: ys)) with (x ++ sep ++ String.concat sep (y :: ys)).
    rewrite E. now rewrite !append_assoc.
Qed.

(** X11. Every line of the transcript is in the prompt of the next turn.
    The continuation prompt of either variant contains each line of the
    transcript it is built from, so the request that opens a turn carries
    the premise, every scene and every choice so far, the choice just made
    included: nothing is summarised or dropped. *)
Theorem prompt_carries_the_transcript (story_history : list string)
    (line : string) :
  In line story_history ->
  contains line (Console.next_prompt story_history) = true /\
  contains line (Push.next_prompt story_history) = true.
Proof.
  intros Hin.
  destruct (join_holds_every_line " " _ _ Hin) as (before & after & E).
  unfold Console.next_prompt, Push.next_prompt. rewrite E. split.
  - rewrite <- !append_cons. rewrite <- !append_assoc. rewrite append_assoc.
    apply contains_append.
  - rewrite <- !append_cons. rewrite <- !append_assoc. rewrite append_assoc.
    apply contains_append.
Qed.

Lemma prompt_carries_the_transcript_witness :
  contains "User chose: B"
    (Console.next_prompt
       ["The user's character is a knight."; "AI Scene: You stand at a gate.";
        "User chose: B"]) = true /\
  contains "User chose: B"
    (Push.next_prompt
       ["The user's character is a knight."; "AI Scene: You stand at a gate.";
        "User chose: B"]) = true.
Proof.
  apply (prompt_carries_the_transcript
           ["The user's character is a knight."; "AI Scene: You stand at a gate.";
            "User chose: B"] "User chose: B").
  simpl. tauto.
Defined.

(** ** Cleaning twice, and the size of a cleaned text *)

Lemma replace_absent old new s : occurs old s = false -> replace old new s = s.
Proof.
  induction s as [|c s IH]; [reflexivity|]. cbn [occurs replace].
  intros H. apply orb_false_iff in H as [Hc Hs].
  rewrite Hc. now rewrite IH.
Qed.

Lemma length_replace_newline s :
  String.length (replace newline " " s) = String.length s.
Proof.
  induction s as [|c s IH]; [reflexivity|]. cbn [replace].
  destruct (Ascii.eqb c newline).
  - rewrite append_cons, append_empty. cbn [String.length]. now rewrite IH.
  - cbn [String.length]. now rewrite IH.
Qed.

Lemma length_replace_star s :
  String.length (replace "*" "" s) <= String.length s.
Proof.
  induction s as [|c s IH]; [reflexivity|]. cbn [replace].
  destruct (Ascii.eqb c "*").
  - rewrite append_empty. cbn [String.length]. lia.
  - cbn [String.length]. lia.
Qed.

(** X12. Cleaning a visual prompt is final and never adds.  The
    post-processing of either image-prompt deriver, applied to its own
    result, changes nothing, and its result is never longer than the text
    it was given. *)
Theorem clean_is_final (s : string) :
  clean (clean s) = clean s /\ String.length (clean s) <= String.length s.
Proof.
    split.
  - unfold clean at 1.
    rewrite (replace_absent newline " " _ (clean_no_newline s)).
    rewrite (replace_absent "*" "" _ (clean_no_star s)).
    unfold clean. apply strip_strip.
  - unfold clean.
    pose proof (length_strip (replace "*" "" (replace newline " " s))).
    pose proof (length_replace_star (replace newline " " s)).
    pose proof (length_replace_newline s). lia.
Qed.

(** ** From the scene to the request for its picture *)

Lemma console_generate_image_posts fuel visual_prompt h tr :
  HUGGINGFACE_API_KEY h <> "" ->
  exists more,
    snd (Console.generate_image_with_stable_diffusion fuel visual_prompt h tr)
    = (tr ++ image_request h visual_prompt :: more)%list.
Proof.
  intros K. rewrite (console_generate_image_cases _ _ _ _ K).
  unfold console_attempt_result.
  assert (One : exists more,
            (tr ++ [image_request h visual_prompt])%list
            = (tr ++ image_request h visual_prompt :: more)%list)
    by now exists [].
  destruct (reply h _) as [[r|]|r]; [ | exact One | destruct (is_error_status r); exact One ].
  destruct (Response_bool r); [|exact One].
  destruct (json_body r) as [d|]; [|exact One].
  destruct (fst (Console.loading_wait d h _)) as [[t|]|x]; try exact One.
    destruct (t <? 0)%Z; [exact One|].
  destruct (max_sleep h <? t)%Z; [exact One|].
  rewrite swallowed_snd.
    assert (G : grows match fuel with
                    | O => raise RecursionError
                    | S fuel' =>
                        Console.generate_image_with_stable_diffusion fuel' visual_prompt
                    end).
  { destruct fuel; [apply grows_raise|apply grows_console_generate_image]. }
  destruct (G h ((tr ++ [image_request h visual_prompt]) ++ [Sleep t])%list)
    as [more E].
  exists (Sleep t :: more). rewrite E. now rewrite <- !app_assoc.
Qed.



(** ** How a console session ends *)

(** X14. A console session ends normally only at the quit signal, and reads
    nothing after it.  If the loop is left normally, the input splits
    into lines none of which is the quit signal, a line that is, and a
    rest; the loop ends the same way whatever the rest is.  An input that
    runs out before a quit signal therefore never ends the loop normally:
    [input()] raises EOFError, unless an exception came earlier. *)
Theorem session_ends_at_first_quit (fuel : nat) (h : Host) (stdin : list string) :
  forall st tr st' tr',
    Console.game_loop fuel st stdin h tr = (Ret st', tr') ->
    exists before line after,
      stdin = (before ++ line :: after)%list /\
      Forall (fun l => upper l <> "QUIT") before /\
      upper line = "QUIT" /\
      forall unread,
        Console.game_loop fuel st (before ++ line :: unread)%list h tr
        = (Ret st', tr').
Proof.
    induction stdin as [|l rest IH]; intros st tr st' tr' H.
  { rewrite console_game_loop_nil in H.
    destruct (Console.scene_text st); discriminate. }
  rewrite console_game_loop_cons in H.
  destruct (Console.scene_text st) eqn:Sc; try discriminate.
  destruct (String.eqb_spec (upper l) "QUIT") as [Q|Q].
  - exists [], l, rest. split; [reflexivity|]. split; [constructor|].
    split; [exact Q|]. intros unread.
    assert (E : Console.loop_body fuel st l h tr = (Ret (Console.Break, st), tr)).
    { unfold Console.loop_body. now rewrite Q. }
        rewrite E in H. cbn [app]. now rewrite console_game_loop_cons, Sc, E.
  - destruct (Console.loop_body fuel st l h tr) as [[[flow st1]|e] tr1] eqn:L;
      try discriminate.
    destruct flow.
    + exfalso. unfold Console.loop_body in L.
      destruct (String.eqb_spec (upper l) "QUIT") as [|_]; [contradiction|].
      destruct (negb (in_list (upper l) ["A"; "B"])); [discriminate|].
      unfold bind in L.
      destruct (Console.call_gemini_api _ h tr) as [[v|e] t1]; try discriminate.
            destruct (py_str v h t1) as [[x|e] t2]; try discriminate.
      destruct (Console.illustrate fuel v _ h t2) as [[n|e] t3]; discriminate.
    + destruct (IH _ _ _ _ H) as (before & line & after & -> & F & QL & U).
      exists (l :: before), line, after. split; [reflexivity|].
      split; [now constructor|]. split; [exact QL|]. intros unread.
            cbn [app]. rewrite console_game_loop_cons, Sc, L. apply U.
Qed.

Lemma session_ends_at_first_quit_witness :
  exists before line after,
    ["x"; utf8 [113; 117; 196; 177; 116]; "a"] = (before ++ line :: after)%list /\
    Forall (fun l => upper l <> "QUIT") before /\
    upper line = "QUIT" /\
    forall unread,
      Console.game_loop 0
        {| Console.story_history := ["The user's character is a knight."];
           Console.scene_text := JStr "You stand at a gate.";
           Console.scene_counter := 0 |}
        (before ++ line :: unread)%list offline []
      = (Ret {| Console.story_history := ["The user's character is a knight."];
                Console.scene_text := JStr "You stand at a gate.";
                Console.scene_counter := 0 |}, []).
Proof.
  apply (session_ends_at_first_quit 0 offline
           ["x"; utf8 [113; 117; 196; 177; 116]; "a"]).
  reflexivity.
Defined.

(** ** The registry of connections *)

Lemma list_remove_append l x :
  ~ In x l -> Server.list_remove x (append l x) = Some l.
Proof.
  unfold append. induction l as [|y l IH]; intros N; simpl.
  - now rewrite Nat.eqb_refl.
  - destruct (Nat.eqb_spec y x) as [->|Hne]; [exfalso; apply N; now left|].
    rewrite IH; [reflexivity|]. intros Hin. apply N. now right.
Qed.

Lemma list_remove_absent l x : ~ In x l <-> Server.list_remove x l = None.
Proof.
  induction l as [|y l IH]; simpl.
  - split; [reflexivity|tauto].
  - destruct (Nat.eqb_spec y x) as [->|Hne].
    + split; [intros N; exfalso; apply N; now left|discriminate].
    + destruct (Server.list_remove x l) as [rest|].
      * split; [|discriminate]. intros N. exfalso.
        assert (Hn : ~ In x l) by (intros Hin; apply N; now right).
        apply IH in Hn. discriminate.
      * split; [reflexivity|]. intros _ [E|Hin]; [contradiction|].
        now apply (proj2 IH).
Qed.

Lemma list_remove_present l x rest :
  Server.list_remove x l = Some rest ->
  List.length l = S (List.length rest) /\
  count_occ Nat.eq_dec l x = S (count_occ Nat.eq_dec rest x) /\
  forall y, y <> x -> count_occ Nat.eq_dec rest y = count_occ Nat.eq_dec l y.
Proof.
  revert rest. induction l as [|z l IH]; intros rest H; simpl in H; [discriminate|].
  destruct (Nat.eqb_spec z x) as [->|Hne].
  - inversion H; subst. split; [reflexivity|]. split.
    + simpl. destruct (Nat.eq_dec x x); [reflexivity|contradiction].
    + intros y Hy. simpl. destruct (Nat.eq_dec x y); [congruence|reflexivity].
  - destruct (Server.list_remove x l) as [rest'|]; [|discriminate].
    inversion H; subst. destruct (IH rest' eq_refl) as (L & C & O).
    split; [simpl; now rewrite L|]. split.
    + simpl. destruct (Nat.eq_dec z x); [contradiction|exact C].
    + intros y Hy. simpl. destruct (Nat.eq_dec z y); [now rewrite O|now apply O].
Qed.

Lemma connect_registry_round_trip manager websocket :
  ~ In websocket (Server.active_connections manager) ->
  Server.disconnect (Server.connect manager websocket) websocket = Some manager /\
  Server.disconnect manager websocket = None.
Proof.
  intros N. unfold Server.disconnect, Server.connect. simpl.
  rewrite (list_remove_append _ _ N).
  rewrite (proj1 (list_remove_absent _ _) N).
  split; [now destruct manager|reflexivity].
Qed.

(** X15. Connecting and disconnecting, one after the other.  For a
    connection that is not yet in the registry, [disconnect] after
    [connect] gives the registry back as it was.  In general [disconnect]
    takes away one entry of that connection and leaves every other entry
    as it was, and for a connection that is not registered it raises (the
    ValueError of [list.remove]). *)
Theorem connect_then_disconnect (manager : Server.ConnectionManager)
    (websocket : Server.WebSocket) :
  (~ In websocket (Server.active_connections manager) ->
   Server.disconnect (Server.connect manager websocket) websocket = Some manager /\
   Server.disconnect manager websocket = None) /\
  (forall manager',
     Server.disconnect manager websocket = Some manager' ->
     List.length (Server.active_connections manager)
     = S (List.length (Server.active_connections manager')) /\
     count_occ Nat.eq_dec (Server.active_connections manager) websocket
     = S (count_occ Nat.eq_dec (Server.active_connections manager') websocket) /\
     forall other,
       other <> websocket ->
       count_occ Nat.eq_dec (Server.active_connections manager') other
       = count_occ Nat.eq_dec (Server.active_connections manager) other).
Proof.
  split.
  - apply connect_registry_round_trip.
  - intros manager' H. unfold Server.disconnect in H.
    destruct (Server.list_remove websocket (Server.active_connections manager))
      as [rest|] eqn:R; [|discriminate].
    inversion H; subst. simpl. now apply list_remove_present.
Qed.

Lemma connect_then_disconnect_witness :
  Server.disconnect
    (Server.connect {| Server.active_connections := [4; 7] |} 9) 9
  = Some {| Server.active_connections := [4; 7] |} /\
  Server.disconnect {| Server.active_connections := [4; 7] |} 9 = None.
Proof.
  apply (proj1 (connect_then_disconnect
                  {| Server.active_connections := [4; 7] |} 9)).
  simpl. intros [H|[H|[]]]; discriminate.
Defined.

Lemma disconnect_after_connect_succeeds manager websocket :
  Server.disconnect (Server.connect manager websocket) websocket <> None.
Proof.
  unfold Server.disconnect, Server.connect, append. simpl.
  destruct (Server.list_remove websocket _) as [rest|] eqn:R; [discriminate|].
  exfalso. apply list_remove_absent in R. apply R.
  apply in_or_app. right. now left.
Qed.

(** X16. A session that ends in an exception stays registered.  The
    endpoint takes a connection out of the registry only in its handler of
    WebSocketDisconnect.  A session that ends because the client left
    gives the registry back as it was before the connection came; a
    session that ends in any other exception leaves its connection in
    active_connections.  A first message that is not a JSON object is such
    an end: AttributeError, before any request is posted. *)
Theorem crashed_session_stays_registered (manager : Server.ConnectionManager)
    (websocket : Server.WebSocket) (inbox : list json) (h : Host)
    (tr : list event) :
  (forall e tr' manager',
     Server.websocket_endpoint manager websocket inbox h tr
     = ((Raise e, tr'), manager') ->
     manager' = Server.connect manager websocket /\
     In websocket (Server.active_connections manager') /\
     fst (Push.websocket_endpoint inbox h tr) = Raise e) /\
  (forall tr' manager',
     ~ In websocket (Server.active_connections manager) ->
     Server.websocket_endpoint manager websocket inbox h tr
     = ((Ret tt, tr'), manager') ->
     manager' = manager) /\
  (forall initial_data rest,
     inbox = initial_data :: rest ->
     is_object initial_data = false ->
     Server.websocket_endpoint manager websocket inbox h tr
     = ((Raise AttributeError, tr), Server.connect manager websocket)).
Proof.
  split; [|split].
  - intros e tr' manager' H. unfold Server.websocket_endpoint in H.
    destruct (Push.websocket_endpoint inbox h tr) as [[hist|x] tr1].
    + destruct (Server.disconnect (Server.connect manager websocket) websocket)
        as [m|] eqn:D; [discriminate|].
      now destruct (disconnect_after_connect_succeeds manager websocket).
    + inversion H; subst. split; [reflexivity|]. split; [|reflexivity].
      unfold Server.connect, append. simpl. apply in_or_app. right. now left.
  - intros tr' manager' N H. unfold Server.websocket_endpoint in H.
    destruct (Push.websocket_endpoint inbox h tr) as [[hist|x] tr1];
      try discriminate.
    destruct (connect_registry_round_trip manager websocket N) as [D _].
    rewrite D in H. now inversion H.
  - intros initial_data rest -> O. unfold Server.websocket_endpoint.
    destruct initial_data; try discriminate; reflexivity.
Qed.

Lemma crashed_session_stays_registered_witness :
  Server.connect {| Server.active_connections := [4] |} 9
  = Server.connect {| Server.active_connections := [4] |} 9 /\
  In 9 (Server.active_connections
          (Server.connect {| Server.active_connections := [4] |} 9)) /\
  fst (Push.websocket_endpoint [JObj [("idea", JStr "a knight")]] censoring [])
  = Raise KeyError.
Proof.
  apply (proj1 (crashed_session_stays_registered
                  {| Server.active_connections := [4] |} 9
                  [JObj [("idea", JStr "a knight")]] censoring [])
           KeyError
           (snd (Push.websocket_endpoint [JObj [("idea", JStr "a knight")]]
                   censoring []))).
  reflexivity.
Defined.

(** ** Choices as the transcript records them *)

Lemma console_choices_valid stdin :
  Forall (fun c => c = "A" \/ c = "B") (console_choices stdin).
Proof.
  induction stdin as [|line rest IH]; cbn [console_choices]; [constructor|].
  destruct (String.eqb (upper line) "QUIT"); [constructor|].
  destruct (in_list (upper line) ["A"; "B"]) eqn:V; [|exact IH].
  constructor; [now apply in_AB|exact IH].
Qed.

Lemma push_choices_valid inbox :
  Forall (fun c => c = "A" \/ c = "B") (push_choices inbox).
Proof.
  unfold push_choices. induction inbox as [|data rest IH]; [constructor|].
  cbn [flat_map]. apply Forall_app. split; [|exact IH].
  unfold push_choice. destruct data; try constructor.
  destruct (lookup "choice" members) as [[| | |c| |]|]; try constructor.
  destruct (in_list c ["A"; "B"]) eqn:V; constructor; [now apply in_AB|constructor].
Qed.

Lemma map_fst_valid (turns : list (string * string)) choices :
  map fst turns = choices ->
  Forall (fun c => c = "A" \/ c = "B") choices ->
  Forall (fun turn => fst turn = "A" \/ fst turn = "B") turns.
Proof.
  intros <- F. now apply Forall_map in F.
Qed.

(** X17. The transcript records choices in one spelling.  In a session
    that ends normally, every choice line of the transcript reads "User
    chose: A" or "User chose: B": what was typed as a or b at the console
    is recorded in upper case, and nothing else is ever recorded as a
    choice, in either variant. *)
Theorem choices_are_recorded_as_A_or_B (h : Host) (tr : list event) :
  (forall fuel stdin st' tr',
     Console.main_game_loop fuel stdin h tr = (Ret st', tr') ->
     exists idea opening turns,
       Console.story_history st' = transcript idea opening turns /\
       Forall (fun turn => fst turn = "A" \/ fst turn = "B") turns) /\
  (forall members rest story_history' tr',
     Push.websocket_endpoint (JObj members :: rest) h tr = (Ret story_history', tr') ->
     exists idea opening turns,
       story_history' = transcript idea opening turns /\
       Forall (fun turn => fst turn = "A" \/ fst turn = "B") turns).
Proof.
  split.
  - intros fuel stdin st' tr' H. apply console_main_game_loop_history in H.
    destruct H as (u & r & v & tr1 & turns & _ & _ & Hh & Hc).
    exists u, (shown h v), turns. split; [exact Hh|].
    exact (map_fst_valid _ _ Hc (console_choices_valid r)).
  - intros members rest hist' tr' H. apply push_websocket_endpoint_history in H.
    cbv zeta in H. destruct H as (v & tr1 & turns & _ & Hh & Hc).
    eexists _, (shown h v), turns. split; [exact Hh|].
    exact (map_fst_valid _ _ Hc (push_choices_valid rest)).
Qed.

Lemma choices_are_recorded_as_A_or_B_witness :
  exists idea opening turns,
    ["The user's character is a knight in a haunted forest.";
     "AI Scene: You stand at a gate. A) Enter B) Leave";
     "User chose: A";
     "AI Scene: The gate creaks open. A) Go on B) Wait"]
    = transcript idea opening turns /\
    Forall (fun turn => fst turn = "A" \/ fst turn = "B") turns.
Proof.
  apply (proj1 (choices_are_recorded_as_A_or_B storyteller []) 0
           ["a knight in a haunted forest"; "a"; "quit"]
           {| Console.story_history :=
                ["The user's character is a knight in a haunted forest.";
                 "AI Scene: You stand at a gate. A) Enter B) Leave";
                 "User chose: A";
                 "AI Scene: The gate creaks open. A) Go on B) Wait"];
              Console.scene_text := JStr "The gate creaks open. A) Go on B) Wait";
              Console.scene_counter := 0 |}
           (snd (Console.main_game_loop 0
                   ["a knight in a haunted forest"; "a"; "quit"] storyteller []))).
  vm_compute. reflexivity.
Defined.

(** ** The order of a delivery, and a session without a credential *)



